(** * Chunked source separation with linear cross-fades

    A shallow embedding of [separate_sources] from
    [hybrid_demucs_tutorial.ipynb]: the window loop that slices a long
    mixture into chunks, runs the separation model on each chunk, fades the
    result and adds it into the output tensor.

    Conventions of the embedding.
    - Python [int]s are [Z]; Python [float]s are idealised as exact rationals
      [Q] (no rounding of the arithmetic operations); [int(x)] on a float is
      truncation toward zero.
    - A tensor is its shape together with a total indexing function; only
      indices inside the shape are meaningful.
    - The [while] loop is a fuel-bounded recursion; running out of fuel is
      reported as [OutOfFuel] and is never counted as a normal return. *)

From Stdlib Require Import ZArith QArith Qround Qminmax List Lia Bool String.
From Stdlib Require Import Qfield Lqa.
Import ListNotations.

Open Scope Z_scope.

(** ** Python numerics *)

(** [int(x)] for a float [x]: truncation toward zero. *)
Definition py_int (x : Q) : Z := Z.quot (Qnum x) (Z.pos (Qden x)).

(** [x < y] on floats, as a boolean. *)
Definition Qltb (x y : Q) : bool :=
  (Qnum x * QDen y <? Qnum y * QDen x)%Z.

(** ** Errors and results *)

Inductive error : Type :=
| RuntimeError   (* raised by torch: bad sizes, shapes that do not broadcast *)
| AdapterError.  (* raised inside [model.forward] *)

Inductive result (A : Type) : Type :=
| Ok (a : A)
| Raise (e : error).
Arguments Ok {A} a.
Arguments Raise {A} e.

(** ** Tensors *)

(** A tensor of shape (batch, channels, length), such as [mix]. *)
Record Tensor3 : Type := mkT3 {
  t3_batch : nat;
  t3_chan : nat;
  t3_len : Z;
  t3_data : nat -> nat -> Z -> Q
}.

(** A tensor of shape (batch, sources, channels, length), such as [final]. *)
Record Tensor4 : Type := mkT4 {
  t4_batch : nat;
  t4_src : nat;
  t4_chan : nat;
  t4_len : Z;
  t4_data : nat -> nat -> nat -> Z -> Q
}.

(** [torch.zeros(b, s, c, n)]. *)
Definition zeros4 (b s c : nat) (n : Z) : Tensor4 :=
  mkT4 b s c n (fun _ _ _ _ => 0%Q).

(** Normalisation of one bound of a slice [i:j] over an axis of size [n]:
    a negative bound counts from the end, and the result is clamped to
    [0, n]. *)
Definition slice_bound (n i : Z) : Z :=
  if i <? 0 then Z.max 0 (i + n) else Z.min i n.

(** First index and number of frames selected by [start:stop] on an axis of
    size [n]. *)
Definition slice_lo (n start : Z) : Z := slice_bound n start.
Definition slice_len (n start stop : Z) : Z :=
  Z.max 0 (slice_bound n stop - slice_bound n start).

(** [mix[:, :, start:stop]]. *)
Definition slice3 (m : Tensor3) (start stop : Z) : Tensor3 :=
  let lo := slice_lo (t3_len m) start in
  mkT3 (t3_batch m) (t3_chan m) (slice_len (t3_len m) start stop)
       (fun b c t => t3_data m b c (lo + t)).

(** The slice [mix[:, :, start:stop]] is a view: it shares the storage of
    [mix].  [write_view3 m start stop v] is the storage of [m] once the
    frames of the view hold the data of [v]. *)
Definition write_view3 (m : Tensor3) (start stop : Z) (v : Tensor3) : Tensor3 :=
  let lo := slice_lo (t3_len m) start in
  let n := slice_len (t3_len m) start stop in
  mkT3 (t3_batch m) (t3_chan m) (t3_len m)
       (fun b c t =>
          if (lo <=? t) && (t <? lo + n) then t3_data v b c (t - lo)
          else t3_data m b c t).

(** Broadcasting of one axis: an operand of size [d_src] can be added in
    place into an axis of size [d_dst] when the sizes agree or [d_src] is 1. *)
Definition bcast_ok_nat (d_dst d_src : nat) : bool :=
  Nat.eqb d_src d_dst || Nat.eqb d_src 1.
Definition bcast_ok_Z (d_dst d_src : Z) : bool :=
  (d_src =? d_dst) || (d_src =? 1).
Definition bidx_nat (d_src i : nat) : nat := if Nat.eqb d_src 1 then O else i.
Definition bidx_Z (d_src i : Z) : Z := if d_src =? 1 then 0 else i.

(** [final[:, :, :, start:stop] += out]. *)
Definition iadd_slice (final : Tensor4) (start stop : Z) (out : Tensor4)
  : result Tensor4 :=
  let lo := slice_lo (t4_len final) start in
  let n := slice_len (t4_len final) start stop in
  if bcast_ok_nat (t4_batch final) (t4_batch out)
     && bcast_ok_nat (t4_src final) (t4_src out)
     && bcast_ok_nat (t4_chan final) (t4_chan out)
     && bcast_ok_Z n (t4_len out)
  then
    Ok (mkT4 (t4_batch final) (t4_src final) (t4_chan final) (t4_len final)
          (fun b s c t =>
             if (lo <=? t) && (t <? lo + n) then
               (t4_data final b s c t
                + t4_data out (bidx_nat (t4_batch out) b)
                              (bidx_nat (t4_src out) s)
                              (bidx_nat (t4_chan out) c)
                              (bidx_Z (t4_len out) (t - lo)))%Q
             else t4_data final b s c t))
  else Raise RuntimeError.

(** ** The fade transform *)

(** Modelled from the spec: [torchaudio.transforms.Fade] is imported by the
    notebook and not defined in it.  With [fade_shape="linear"] the gain
    ramps linearly from 0 to 1 over the first [fade_in_len] frames, holds at
    1, and ramps linearly from 1 to 0 over the last [fade_out_len] frames;
    the ramps are [torch.linspace(0, 1, len)], the flat parts are
    [torch.ones], and the concatenation is clamped to [0, 1]. *)
Record Fade : Type := mkFade {
  fade_in_len : Z;
  fade_out_len : Z
}.

(** Entry [i] of [torch.linspace(0, 1, steps)]. *)
Definition linspace01 (steps i : Z) : Q :=
  if steps =? 1 then 0%Q else (inject_Z i / inject_Z (steps - 1))%Q.

Definition clamp01 (x : Q) : Q := Qmin (Qmax x 0) 1.

(** Gain of the fade-in envelope at frame [t] of a waveform. *)
Definition fade_in_gain (f : Fade) (t : Z) : Q :=
  clamp01 (if t <? fade_in_len f then linspace01 (fade_in_len f) t else 1%Q).

(** Gain of the fade-out envelope at frame [t] of a waveform of [n] frames. *)
Definition fade_out_gain (f : Fade) (n t : Z) : Q :=
  clamp01 (if t <? n - fade_out_len f then 1%Q
           else (- linspace01 (fade_out_len f) (t - (n - fade_out_len f)) + 1)%Q).

(** Total gain applied at frame [t] of a waveform of [n] frames. *)
Definition fade_gain (f : Fade) (n t : Z) : Q :=
  (fade_in_gain f t * fade_out_gain f n t)%Q.

(** Sizes for which the envelopes can be built: [linspace] needs a
    non-negative number of steps and [ones] a non-negative size. *)
Definition fade_sizes_ok (f : Fade) (n : Z) : bool :=
  (0 <=? fade_in_len f) && (fade_in_len f <=? n)
  && (0 <=? fade_out_len f) && (fade_out_len f <=? n).

(** [fade(out)]. *)
Definition fade_forward (f : Fade) (w : Tensor4) : result Tensor4 :=
  if fade_sizes_ok f (t4_len w) then
    Ok (mkT4 (t4_batch w) (t4_src w) (t4_chan w) (t4_len w)
          (fun b s c t => (fade_gain f (t4_len w) t * t4_data w b s c t)%Q))
  else Raise RuntimeError.

(** ** The separation model *)

(** The model is a black box.  [forward] receives a view of [mix]; besides
    its output it reports the contents of that view after the call, so that a
    model writing into its argument is visible in [mix]. *)
Record Model : Type := mkModel {
  sources : list string;
  forward : Tensor3 -> result (Tensor3 * Tensor4)
}.

(** ** The window loop *)

(** One call of [model.forward]: the values of [start], [end] and of the two
    fade lengths when the chunk is sliced. *)
Record Window : Type := mkWindow {
  w_start : Z;
  w_end : Z;
  w_fade_in : Z;
  w_fade_out : Z
}.

(** The variables of [separate_sources] that change in the loop, with the
    storage of [mix]. *)
Record State : Type := mkState {
  st_mix : Tensor3;
  st_final : Tensor4;
  st_fade : Fade;
  st_start : Z;
  st_end : Z
}.

Inductive status : Type :=
| Returned
| Raised (e : error)
| OutOfFuel.

Record Run : Type := mkRun {
  r_calls : list Window;   (* the chunks passed to the model, in order *)
  r_state : State;         (* the variables when the run stops *)
  r_status : status
}.

Section Loop.

Variable model : Model.
Variable length : Z.           (* [mix.shape[-1]] *)
Variable chunk_len : Z.
Variable overlap_frames : Q.

(** The loop condition [start < length - overlap_frames]. *)
Definition loop_guard (st : State) : bool :=
  Qltb (inject_Z (st_start st)) (inject_Z length - overlap_frames)%Q.

Definition window_of (st : State) : Window :=
  mkWindow (st_start st) (st_end st)
           (fade_in_len (st_fade st)) (fade_out_len (st_fade st)).

(** The statements after the accumulation: advance [start] and [end] and
    update the fade lengths. *)
Definition advance (st : State) (mix' : Tensor3) (final' : Tensor4) : State :=
  let fade1 :=
    if st_start st =? 0
    then mkFade (py_int overlap_frames) (fade_out_len (st_fade st))
    else st_fade st in
  let start' :=
    if st_start st =? 0
    then st_start st + py_int (inject_Z chunk_len - overlap_frames)%Q
    else st_start st + chunk_len in
  let end' := st_end st + chunk_len in
  let fade2 :=
    if end' >=? length then mkFade (fade_in_len fade1) 0 else fade1 in
  mkState mix' final' fade2 start' end'.

(** One iteration of the loop body. *)
Definition body (st : State) : result State :=
  let chunk := slice3 (st_mix st) (st_start st) (st_end st) in
  match forward model chunk with
  | Raise e => Raise e
  | Ok (chunk', out) =>
      let mix' := write_view3 (st_mix st) (st_start st) (st_end st) chunk' in
      match fade_forward (st_fade st) out with
      | Raise e => Raise e
      | Ok faded =>
          match iadd_slice (st_final st) (st_start st) (st_end st) faded with
          | Raise e => Raise e
          | Ok final' => Ok (advance st mix' final')
          end
      end
  end.

(** The variables when an iteration raises: if the model returned before
    the failure, [mix] holds what the model left in the chunk. *)
Definition state_at_raise (st : State) : State :=
  match forward model (slice3 (st_mix st) (st_start st) (st_end st)) with
  | Raise _ => st
  | Ok (chunk', _) =>
      mkState (write_view3 (st_mix st) (st_start st) (st_end st) chunk')
              (st_final st) (st_fade st) (st_start st) (st_end st)
  end.

Fixpoint loop (fuel : nat) (st : State) : Run :=
  if loop_guard st then
    match fuel with
    | O => mkRun [] st OutOfFuel
    | S fuel' =>
        match body st with
        | Raise e => mkRun [window_of st] (state_at_raise st) (Raised e)
        | Ok st' =>
            let r := loop fuel' st' in
            mkRun (window_of st :: r_calls r) (r_state r) (r_status r)
        end
    end
  else mkRun [] st Returned.

End Loop.

(** [chunk_len = int(sample_rate * segment * (1 + overlap))]. *)
Definition chunk_len_of (sample_rate : Z) (segment overlap : Q) : Z :=
  py_int (inject_Z sample_rate * segment * (1 + overlap))%Q.

(** [overlap_frames = overlap * sample_rate]. *)
Definition overlap_frames_of (sample_rate : Z) (overlap : Q) : Q :=
  (overlap * inject_Z sample_rate)%Q.

(** The fade length [int(overlap_frames)]. *)
Definition fade_len_of (sample_rate : Z) (overlap : Q) : Z :=
  py_int (overlap_frames_of sample_rate overlap).

(** The first advance of the cursor, [int(chunk_len - overlap_frames)]. *)
Definition first_advance_of (sample_rate : Z) (segment overlap : Q) : Z :=
  py_int (inject_Z (chunk_len_of sample_rate segment overlap)
          - overlap_frames_of sample_rate overlap)%Q.

(** The variables on entry to the loop. *)
Definition init_state (sample_rate : Z) (model : Model) (mix : Tensor3)
    (segment overlap : Q) : State :=
  let chunk_len := chunk_len_of sample_rate segment overlap in
  let overlap_frames := overlap_frames_of sample_rate overlap in
  mkState mix
          (zeros4 (t3_batch mix) (List.length (sources model)) (t3_chan mix)
                  (t3_len mix))
          (mkFade 0 (py_int overlap_frames))
          0 chunk_len.

(** [separate_sources(model, mix, segment, overlap)], with the global
    [sample_rate] as a parameter.  The value returned by the Python function
    is [st_final] of the final state when the status is [Returned]. *)
Definition separate_sources (sample_rate : Z) (fuel : nat) (model : Model)
    (mix : Tensor3) (segment overlap : Q) : Run :=
  loop model (t3_len mix)
       (chunk_len_of sample_rate segment overlap)
       (overlap_frames_of sample_rate overlap)
       fuel (init_state sample_rate model mix segment overlap).

(** The defaults of the signature: [segment=10.0], [overlap=0.1]. *)
Definition default_segment : Q := 10.
Definition default_overlap : Q := 1 # 10.

(** ** Vocabulary of the specification *)

(** A valid configuration: positive sample rate, positive segment duration,
    overlap fraction in [0, 1). *)
Definition valid_config (sample_rate : Z) (segment overlap : Q) : Prop :=
  0 < sample_rate /\ (0 < segment)%Q /\ (0 <= overlap)%Q /\ (overlap < 1)%Q.

(** Rounding to the nearest integer, as the specification words the derived
    frame counts (ties to the even neighbour, as Python's [round]).  This
    definition follows the specification, not the source. *)
Definition spec_round (x : Q) : Z :=
  let f := Qfloor x in
  let r := (x - inject_Z f)%Q in
  if Qltb r (1 # 2) then f
  else if Qltb (1 # 2) r then f + 1
  else if Z.even f then f else f + 1.

(** Frame [t] lies in the index range [start, end) of a window. *)
Definition in_window (w : Window) (t : Z) : Prop :=
  w_start w <= t < w_end w.

Definition in_windowb (w : Window) (t : Z) : bool :=
  (w_start w <=? t) && (t <? w_end w).

(** Frame [t] of a signal of [n] frames is selected by the slice
    [w_start:w_end] of a window. *)
Definition in_slice (n : Z) (w : Window) (t : Z) : Prop :=
  slice_lo n (w_start w) <= t
  < slice_lo n (w_start w) + slice_len n (w_start w) (w_end w).

(** Gain that the fade of window [w] applies at frame [t] of a signal of [n]
    frames, for a model output as long as the chunk. *)
Definition window_gain (n : Z) (w : Window) (t : Z) : Q :=
  fade_gain (mkFade (w_fade_in w) (w_fade_out w))
            (slice_len n (w_start w) (w_end w))
            (t - slice_lo n (w_start w)).

(** Equality of two (batch, channels, length) tensors: same shape, same
    sample at every index of the shape. *)
Definition t3_same (a b : Tensor3) : Prop :=
  t3_batch a = t3_batch b /\ t3_chan a = t3_chan b /\ t3_len a = t3_len b /\
  forall i j t, (i < t3_batch a)%nat -> (j < t3_chan a)%nat ->
                0 <= t < t3_len a ->
                t3_data a i j t = t3_data b i j t.

(** A model that does not write into its argument. *)
Definition forward_pure (m : Model) : Prop :=
  forall x x' out, forward m x = Ok (x', out) -> t3_same x' x.

(** A model that never raises and returns one stream per source, shaped as
    its input. *)
Definition adapter_ok (m : Model) : Prop :=
  forall x, exists x' out,
    forward m x = Ok (x', out) /\
    t4_batch out = t3_batch x /\ t4_src out = List.length (sources m) /\
    t4_chan out = t3_chan x /\ t4_len out = t3_len x.

(** The identity adapter: one source, equal to the input. *)
Definition unsqueeze (x : Tensor3) : Tensor4 :=
  mkT4 (t3_batch x) 1 (t3_chan x) (t3_len x)
       (fun b _ c t => t3_data x b c t).

Definition identity_model : Model :=
  mkModel ["mix"%string] (fun x => Ok (x, unsqueeze x)).

(** A signal whose samples all equal [v]. *)
Definition const3 (b c : nat) (n : Z) (v : Q) : Tensor3 :=
  mkT3 b c n (fun _ _ _ => v).

(** The value returned by a run. *)
Definition r_final (r : Run) : Tensor4 := st_final (r_state r).

(** ** The schedule of the loop in closed form

    With [C] the chunk length, [a] the first advance of the cursor and [V]
    the fade length, the [k]-th iteration (counted from 0) runs with the
    following values of [start], [end] and of the fade lengths. *)

Definition start_at (C a : Z) (k : nat) : Z :=
  match k with
  | O => 0
  | S k' => a + Z.of_nat k' * C
  end.

Definition end_at (C : Z) (k : nat) : Z := (Z.of_nat k + 1) * C.

Definition fade_in_at (V : Z) (k : nat) : Z :=
  match k with
  | O => 0
  | S _ => V
  end.

Definition fade_out_at (L C V : Z) (k : nat) : Z :=
  match k with
  | O => V
  | S _ => if end_at C k >=? L then 0 else V
  end.

Definition nth_window (L C a V : Z) (k : nat) : Window :=
  mkWindow (start_at C a k) (end_at C k) (fade_in_at V k) (fade_out_at L C V k).

(** The variables at the head of iteration [k], when the cursor never comes
    back to 0. *)
Definition geom_inv (L C a V : Z) (k : nat) (st : State) : Prop :=
  window_of st = nth_window L C a V k.

(** What holds of [end] and of the fade lengths at the head of iteration [k]
    whatever the cursor does. *)
Definition fade_inv (L C V : Z) (k : nat) (st : State) : Prop :=
  (k = O -> st_start st = 0)
  /\ st_end st = end_at C k
  /\ fade_in_len (st_fade st) = fade_in_at V k
  /\ fade_out_len (st_fade st) = fade_out_at L C V k.

(** The shapes of [mix] and [final] during a run. *)
Definition shape_inv (b s c : nat) (L : Z) (st : State) : Prop :=
  t3_batch (st_mix st) = b /\ t3_chan (st_mix st) = c /\ t3_len (st_mix st) = L
  /\ t4_batch (st_final st) = b /\ t4_src (st_final st) = s
  /\ t4_chan (st_final st) = c /\ t4_len (st_final st) = L.

(** ** The accumulator under the identity adapter

    With the identity adapter, an overlap of [V] whole frames and a signal
    longer than one chunk, [final] holds at the head of iteration [k]: the
    samples of [mix] before the last overlap region, the faded-out samples
    inside it (or the samples themselves once the previous window has reached
    the end of the signal), and zero after the end of the previous window. *)
Definition expected_acc (mix : Tensor3) (L C V : Z) (k : nat) (b c : nat)
    (t : Z) : Q :=
  match k with
  | O => 0%Q
  | S _ =>
      let e := Z.of_nat k * C in
      if t <? e - V then t3_data mix b c t
      else if t <? e then
        if e <? L
        then ((- linspace01 V (t - (e - V)) + 1) * t3_data mix b c t)%Q
        else t3_data mix b c t
      else 0%Q
  end.

Definition acc_inv (mix : Tensor3) (L C V : Z) (k : nat) (st : State) : Prop :=
  (forall b c t, t3_data (st_mix st) b c t = t3_data mix b c t)
  /\ forall b c t, (b < t3_batch mix)%nat -> (c < t3_chan mix)%nat ->
                   0 <= t < L ->
       (t4_data (st_final st) b 0 c t == expected_acc mix L C V k b c t)%Q.

(** ** The script that separates a track

    The cell that loads a song, normalises it, calls [separate_sources],
    undoes the normalisation and files the separated streams under the names
    of the sources; and the cell that cuts a five-second clip out of each
    stream. *)

(** A waveform of shape (channels, length), as [torchaudio.load] returns. *)
Record Tensor2 : Type := mkT2 {
  t2_chan : nat;
  t2_len : Z;
  t2_data : nat -> Z -> Q
}.

(** What can stop the script besides an error of [separate_sources]. *)
Inductive script_error : Type :=
| SeparationError (e : error)
| IndexError
| KeyError.

Inductive outcome (A : Type) : Type :=
| Done (a : A)
| Fails (e : script_error)
| Diverges.
Arguments Done {A} a.
Arguments Fails {A} e.
Arguments Diverges {A}.

(** [(waveform - ref.mean()) / ref.std()]; the two scalars are computed by
    torch ([std] takes a square root) and are parameters here.  A [std] of
    zero gives infinities or NaN in floating point, which the rationals do
    not have: the properties below assume a non-zero [std]. *)
Definition normalize (waveform : Tensor2) (mean std : Q) : Tensor2 :=
  mkT2 (t2_chan waveform) (t2_len waveform)
       (fun c t => ((t2_data waveform c t - mean) / std)%Q).

(** [waveform[None]]: a batch axis of size 1 in front. *)
Definition add_batch (waveform : Tensor2) : Tensor3 :=
  mkT3 1 (t2_chan waveform) (t2_len waveform)
       (fun _ c t => t2_data waveform c t).

(** [x[0]] on the batch axis; the remaining axes are (sources, channels,
    length), held in a [Tensor3] whose first axis is the source axis. *)
Definition index_batch0 (x : Tensor4) : option Tensor3 :=
  if Nat.eqb (t4_batch x) 0 then None
  else Some (mkT3 (t4_src x) (t4_chan x) (t4_len x)
               (fun s c t => t4_data x 0 s c t)).

(** [sources * ref.std() + ref.mean()]. *)
Definition denormalize (x : Tensor3) (mean std : Q) : Tensor3 :=
  mkT3 (t3_batch x) (t3_chan x) (t3_len x)
       (fun s c t => (t3_data x s c t * std + mean)%Q).

(** [list(sources)]: the sub-tensors along the first axis. *)
Definition unbind (x : Tensor3) : list Tensor2 :=
  map (fun s => mkT2 (t3_chan x) (t3_len x) (fun c t => t3_data x s c t))
      (seq 0 (t3_batch x)).

(** A Python [dict] with string keys: the entries in insertion order. *)
Definition dict (A : Type) : Type := list (string * A).

(** [d[k] = v]. *)
Fixpoint dict_set {A : Type} (d : dict A) (k : string) (v : A) : dict A :=
  match d with
  | [] => [(k, v)]
  | (k', v') :: d' =>
      if String.eqb k' k then (k', v) :: d' else (k', v') :: dict_set d' k v
  end.

(** [d[k]]; [None] stands for the [KeyError]. *)
Fixpoint dict_get {A : Type} (d : dict A) (k : string) : option A :=
  match d with
  | [] => None
  | (k', v) :: d' => if String.eqb k' k then Some v else dict_get d' k
  end.

(** [dict(pairs)]. *)
Definition dict_of_pairs {A : Type} (pairs : list (string * A)) : dict A :=
  fold_left (fun d kv => dict_set d (fst kv) (snd kv)) pairs [].

(** The parameters set by the script. *)
Definition script_segment : Q := 10.
Definition script_overlap : Q := 1 # 10.

(** The separation cell: from the loaded [waveform] to [audios]. *)
Definition separate_track (sample_rate : Z) (fuel : nat) (model : Model)
    (waveform : Tensor2) (mean std : Q) : outcome (dict Tensor2) :=
  let normalized := normalize waveform mean std in
  let run := separate_sources sample_rate fuel model (add_batch normalized)
                              script_segment script_overlap in
  match r_status run with
  | OutOfFuel => Diverges
  | Raised e => Fails (SeparationError e)
  | Returned =>
      match index_batch0 (r_final run) with
      | None => Fails IndexError
      | Some sources0 =>
          let sources1 := denormalize sources0 mean std in
          Done (dict_of_pairs (combine (sources model) (unbind sources1)))
      end
  end.

(** [x[:, start:stop]] on a (channels, length) tensor. *)
Definition slice2 (x : Tensor2) (start stop : Z) : Tensor2 :=
  let lo := slice_lo (t2_len x) start in
  mkT2 (t2_chan x) (slice_len (t2_len x) start stop)
       (fun c t => t2_data x c (lo + t)).

(** The seconds between which the clips are cut. *)
Definition segment_start : Z := 150.
Definition segment_end : Z := 155.

(** [audios[name][:, frame_start:frame_end]] with
    [frame_start = segment_start * sample_rate] and
    [frame_end = segment_end * sample_rate]. *)
Definition clip (sample_rate : Z) (audios : dict Tensor2) (name : string)
  : outcome Tensor2 :=
  match dict_get audios name with
  | None => Fails KeyError
  | Some x =>
      Done (slice2 x (segment_start * sample_rate) (segment_end * sample_rate))
  end.

(** * Properties *)

(** ** Python numerics *)

Lemma Qltb_lt (x y : Q) : Qltb x y = true <-> (x < y)%Q.
Proof. unfold Qltb, Qlt. apply Z.ltb_lt. Qed.

Lemma Qltb_ge (x y : Q) : Qltb x y = false <-> (y <= x)%Q.
Proof. unfold Qltb, Qle. rewrite Z.ltb_ge. reflexivity. Qed.

Lemma Qnum_nonneg (x : Q) : (0 <= x)%Q <-> 0 <= Qnum x.
Proof. destruct x as [n d]. unfold Qle. simpl. lia. Qed.

(** On non-negative floats [int] is the floor. *)
Lemma py_int_floor (x : Q) : (0 <= x)%Q -> py_int x = Qfloor x.
Proof.
  intros H. apply Qnum_nonneg in H. destruct x as [n d]. unfold py_int, Qfloor.
  simpl in *. apply Z.quot_div_nonneg; lia.
Qed.

(** On non-positive floats [int] is the ceiling. *)
Lemma py_int_ceiling (x : Q) : (x <= 0)%Q -> py_int x = Qceiling x.
Proof.
  intros H. destruct x as [n d]. unfold py_int, Qceiling, Qfloor, Qopp, Qle in *.
  simpl in *. assert (Hn : n <= 0) by lia.
  replace n with (- (- n)) at 1 by lia.
  rewrite Z.quot_opp_l by lia. f_equal. apply Z.quot_div_nonneg; lia.
Qed.

Lemma py_int_comp (x y : Q) : (x == y)%Q -> py_int x = py_int y.
Proof.
  intros E. destruct (Qlt_le_dec x 0) as [Hx | Hx].
  - rewrite (py_int_ceiling x), (py_int_ceiling y).
    + now rewrite E.
    + rewrite <- E. now apply Qlt_le_weak.
    + now apply Qlt_le_weak.
  - rewrite (py_int_floor x), (py_int_floor y); [now rewrite E | now rewrite <- E | easy].
Qed.

Lemma py_int_inject (z : Z) : py_int (inject_Z z) = z.
Proof. unfold py_int. simpl. apply Z.quot_1_r. Qed.

(** [int(x) >= 1] only for [x >= 1]. *)
Lemma py_int_ge_1 (x : Q) : 1 <= py_int x -> (0 <= x)%Q /\ (inject_Z (py_int x) <= x)%Q.
Proof.
  intros H. assert (Hx : (0 <= x)%Q).
  { destruct (Qlt_le_dec x 0) as [Hneg | Hpos]; [ | exact Hpos ].
    exfalso. apply Qlt_le_weak in Hneg.
    pose proof (py_int_ceiling x Hneg) as E.
    assert (Qceiling x <= 0).
    { rewrite <- (Qceiling_Z 0). apply Qceiling_resp_le. exact Hneg. }
    lia. }
  split; [exact Hx | ]. rewrite (py_int_floor x Hx). apply Qfloor_le.
Qed.

Lemma py_int_nonneg (x : Q) :
  (0 <= x)%Q -> 0 <= py_int x /\ (inject_Z (py_int x) <= x)%Q /\ (x < inject_Z (py_int x + 1))%Q.
Proof.
  intros Hx. rewrite (py_int_floor x Hx). repeat split.
  - rewrite <- (Qfloor_Z 0). now apply Qfloor_resp_le.
  - apply Qfloor_le.
  - apply Qlt_floor.
Qed.

Lemma inject_Z_le (a b : Z) : (inject_Z a <= inject_Z b)%Q <-> a <= b.
Proof. rewrite <- Zle_Qle. reflexivity. Qed.

Lemma inject_Z_lt (a b : Z) : (inject_Z a < inject_Z b)%Q <-> a < b.
Proof. rewrite <- Zlt_Qlt. reflexivity. Qed.

(** ** Slices *)

Lemma slice_bound_inside (n i : Z) : 0 <= i -> i <= n -> slice_bound n i = i.
Proof. intros H1 H2. unfold slice_bound. destruct (Z.ltb_spec i 0); lia. Qed.

Lemma slice_bound_beyond (n i : Z) : 0 <= n -> n <= i -> slice_bound n i = n.
Proof. intros H1 H2. unfold slice_bound. destruct (Z.ltb_spec i 0); lia. Qed.

Lemma slice_len_clipped (n start stop : Z) :
  0 <= start -> start <= n -> start <= stop ->
  slice_lo n start = start /\ slice_len n start stop = Z.min stop n - start.
Proof.
  intros H1 H2 H3. unfold slice_lo, slice_len.
  rewrite (slice_bound_inside n start) by lia. split; [reflexivity | ].
  destruct (Z.le_gt_cases stop n).
  - rewrite slice_bound_inside by lia. lia.
  - rewrite slice_bound_beyond by lia. lia.
Qed.

(** ** General facts on the loop *)

Section LoopFacts.

Variable model : Model.
Variable L C : Z.
Variable ov : Q.

Local Abbreviation loop' := (loop model L C ov).
Local Abbreviation body' := (body model L C ov).
Local Abbreviation guard' := (loop_guard L ov).
Local Abbreviation advance' := (advance L C ov).

Lemma body_advance (st st' : State) :
  body' st = Ok st' ->
  exists chunk' out faded final',
    forward model (slice3 (st_mix st) (st_start st) (st_end st)) = Ok (chunk', out)
    /\ fade_forward (st_fade st) out = Ok faded
    /\ iadd_slice (st_final st) (st_start st) (st_end st) faded = Ok final'
    /\ st' = advance' st (write_view3 (st_mix st) (st_start st) (st_end st) chunk')
                      final'.
Proof.
  unfold body. intros H.
  destruct (forward model _) as [[chunk' out] | e] eqn:Ef; [ | discriminate ].
  destruct (fade_forward _ out) as [faded | e] eqn:Efd; [ | discriminate ].
  destruct (iadd_slice _ _ _ faded) as [final' | e] eqn:Ea; [ | discriminate ].
  injection H as <-. now exists chunk', out, faded, final'.
Qed.

(** Every window passed to the model comes from a state that satisfied the
    loop condition, and a property of the states that each iteration
    carries from index [k] to index [k+1] holds of the state of call [j]
    at index [k+j]. *)
Lemma loop_calls_inv (P : nat -> State -> Prop) :
  (forall k st st', P k st -> guard' st = true -> body' st = Ok st' ->
                    P (S k) st') ->
  forall fuel k st, P k st ->
  forall j w, nth_error (r_calls (loop' fuel st)) j = Some w ->
  exists st_j, P (k + j)%nat st_j /\ guard' st_j = true /\ w = window_of st_j.
Proof.
  intros Hstep. induction fuel as [ | fuel IH]; intros k st HP j w Hj.
  - simpl in Hj. destruct (guard' st); simpl in Hj; destruct j; discriminate.
  - simpl in Hj. destruct (guard' st) eqn:Hg.
    2:{ simpl in Hj. destruct j; discriminate. }
    destruct (body' st) as [st' | e] eqn:Hb; simpl in Hj.
    + destruct j as [ | j].
      * injection Hj as <-. exists st. rewrite Nat.add_0_r. auto.
      * rewrite Nat.add_succ_r. apply (IH (S k) st'); [ | exact Hj ].
        now apply (Hstep k st).
    + destruct j as [ | j].
      * injection Hj as <-. exists st. rewrite Nat.add_0_r. auto.
      * destruct j; discriminate.
Qed.

(** Consecutive calls come from consecutive states. *)
Lemma loop_calls_next (P : nat -> State -> Prop) :
  (forall k st st', P k st -> guard' st = true -> body' st = Ok st' ->
                    P (S k) st') ->
  forall fuel k st, P k st ->
  forall j w w', nth_error (r_calls (loop' fuel st)) j = Some w ->
                 nth_error (r_calls (loop' fuel st)) (S j) = Some w' ->
  exists st_j st_j', P (k + j)%nat st_j /\ guard' st_j = true
                     /\ w = window_of st_j
                     /\ body' st_j = Ok st_j' /\ guard' st_j' = true
                     /\ w' = window_of st_j'.
Proof.
  intros Hstep. induction fuel as [ | fuel IH]; intros k st HP j w w' Hj Hj'.
  - simpl in Hj. destruct (guard' st); simpl in Hj; destruct j; discriminate.
  - simpl in Hj, Hj'. destruct (guard' st) eqn:Hg.
    2:{ simpl in Hj. destruct j; discriminate. }
    destruct (body' st) as [st' | e] eqn:Hb; simpl in Hj, Hj'.
    + destruct j as [ | j].
      * injection Hj as <-.
        destruct (loop_calls_inv P Hstep fuel (S k) st' (Hstep _ _ _ HP Hg Hb)
                    0%nat w' Hj') as (s0 & _ & Hg0 & Hw0).
        assert (E : window_of s0 = window_of st' /\ guard' st' = true).
        { clear - Hj' Hw0 Hg0. destruct fuel; simpl in Hj'.
          - destruct (guard' st'); discriminate.
          - destruct (guard' st') eqn:G; [ | discriminate ].
            split; [ | reflexivity ].
            destruct (body' st'); simpl in Hj'; congruence. }
        destruct E as [E1 E2].
        exists st, st'. rewrite Nat.add_0_r. repeat split; auto. congruence.
      * rewrite Nat.add_succ_r. apply (IH (S k) st'); [ | exact Hj | exact Hj' ].
        now apply (Hstep k st).
    + destruct j as [ | j]; [ destruct w'; discriminate | destruct j; discriminate ].
Qed.

(** A run without calls leaves the variables as they were. *)
Lemma loop_no_calls (fuel : nat) (st : State) :
  r_calls (loop' fuel st) = [] -> r_state (loop' fuel st) = st.
Proof.
  destruct fuel; simpl; destruct (guard' st); simpl; try reflexivity.
  destruct (body' st); simpl; discriminate.
Qed.

(** When the loop condition fails on entry nothing is called. *)
Lemma loop_guard_false (fuel : nat) (st : State) :
  guard' st = false -> loop' fuel st = mkRun [] st Returned.
Proof. intros H. destruct fuel; simpl; now rewrite H. Qed.

(** When it holds and fuel is left, the first call is the window of the
    entry state. *)
Lemma loop_guard_true (fuel : nat) (st : State) :
  guard' st = true ->
  exists rest, r_calls (loop' (S fuel) st) = window_of st :: rest.
Proof.
  intros H. simpl. rewrite H. destruct (body' st); simpl; eauto.
Qed.

End LoopFacts.

(** ** The schedule followed by the loop *)

Section Schedule.

Variable model : Model.
Variable L C : Z.
Variable ov : Q.

Local Abbreviation a := (py_int (inject_Z C - ov)%Q).
Local Abbreviation V := (py_int ov).
Local Abbreviation loop' := (loop model L C ov).
Local Abbreviation body' := (body model L C ov).
Local Abbreviation guard' := (loop_guard L ov).

Lemma guard_true_iff (st : State) :
  guard' st = true <-> (inject_Z (st_start st) + ov < inject_Z L)%Q.
Proof.
  unfold loop_guard. rewrite Qltb_lt. split; intros H; lra.
Qed.

Lemma guard_false_iff (st : State) :
  guard' st = false <-> (inject_Z L <= inject_Z (st_start st) + ov)%Q.
Proof.
  rewrite <- Bool.not_true_iff_false, guard_true_iff. split.
  - apply Qnot_lt_le.
  - apply Qle_not_lt.
Qed.

(** The fade lengths and [end] follow the closed form in every run. *)
Lemma fade_inv_step (k : nat) (st st' : State) :
  0 <= C ->
  fade_inv L C V k st -> guard' st = true -> body' st = Ok st' ->
  fade_inv L C V (S k) st'.
Proof.
  intros HC (H0 & He & Hi & Ho) _ Hb.
  apply body_advance in Hb. destruct Hb as (chunk' & out & faded & final' & _ & _ & _ & ->).
  unfold fade_inv, advance. simpl. rewrite He.
  assert (Eend : end_at C k + C = end_at C (S k)).
  { unfold end_at. rewrite Nat2Z.inj_succ. lia. }
  rewrite Eend. repeat split.
  - discriminate.
  - destruct (end_at C (S k) >=? L); destruct (st_start st =? 0) eqn:E0; simpl; try reflexivity;
      rewrite Hi; destruct k; try reflexivity;
      apply Z.eqb_neq in E0; exfalso; apply E0; now apply H0.
  - destruct (Z.geb_spec (end_at C (S k)) L) as [Hge | Hlt]; simpl; [reflexivity | ].
    assert (Ho' : fade_out_len (st_fade st) = V).
    { rewrite Ho. destruct k; simpl; [reflexivity | ].
      destruct (Z.geb_spec (end_at C (S k)) L) as [Hge' | _]; [ | reflexivity ].
      rewrite <- Eend in Hlt. lia. }
    destruct (st_start st =? 0); simpl; exact Ho'.
Qed.

(** When the first advance is positive the cursor follows the closed form
    as well. *)
Lemma geom_inv_step (k : nat) (st st' : State) :
  0 <= C -> 1 <= a ->
  geom_inv L C a V k st -> guard' st = true -> body' st = Ok st' ->
  geom_inv L C a V (S k) st'.
Proof.
  intros HC Ha Hinv Hg Hb.
  assert (Hf : fade_inv L C V (S k) st').
  { apply (fade_inv_step k st); auto. unfold geom_inv, window_of, nth_window in Hinv.
    injection Hinv as Hs He Hi Ho. repeat split; auto. intros ->. exact Hs. }
  destruct Hf as (_ & He' & Hi' & Ho').
  apply body_advance in Hb. destruct Hb as (chunk' & out & faded & final' & _ & _ & _ & E).
  unfold geom_inv, window_of, nth_window in *. injection Hinv as Hs He Hi Ho.
  rewrite He', Hi', Ho'. f_equal.
  subst st'. unfold advance. cbn [st_start]. rewrite Hs.
  destruct k as [ | k]; cbn [start_at].
  - rewrite Z.eqb_refl. lia.
  - destruct (Z.eqb_spec (a + Z.of_nat k * C) 0) as [E0 | _]; [ nia | ].
    rewrite Nat2Z.inj_succ. lia.
Qed.

End Schedule.

(** ** Configurations *)

Lemma inject_Z_lt_succ (x y : Z) : (inject_Z x < inject_Z y + 1)%Q -> x <= y.
Proof.
  intros H. assert (H' : (inject_Z x < inject_Z (y + 1))%Q).
  { rewrite inject_Z_plus. exact H. }
  apply -> inject_Z_lt in H'. lia.
Qed.

Lemma inject_Z_minus (x y : Z) : (inject_Z (x - y) == inject_Z x - inject_Z y)%Q.
Proof.
  unfold Z.sub, Qminus. now rewrite inject_Z_plus, inject_Z_opp.
Qed.

Lemma valid_overlap_frames_nonneg (R : Z) (segment overlap : Q) :
  valid_config R segment overlap -> (0 <= overlap_frames_of R overlap)%Q.
Proof.
  intros (HR & _ & Ho & _). unfold overlap_frames_of.
  apply Qmult_le_0_compat; [exact Ho | ].
  apply (inject_Z_le 0). lia.
Qed.

Lemma valid_product_nonneg (R : Z) (segment overlap : Q) :
  valid_config R segment overlap ->
  (0 <= inject_Z R * segment * (1 + overlap))%Q.
Proof.
  intros (HR & Hs & Ho & _).
  apply Qmult_le_0_compat; [ apply Qmult_le_0_compat | ].
  - apply (inject_Z_le 0). lia.
  - now apply Qlt_le_weak.
  - lra.
Qed.

Lemma valid_chunk_len_nonneg (R : Z) (segment overlap : Q) :
  valid_config R segment overlap -> 0 <= chunk_len_of R segment overlap.
Proof.
  intros H. unfold chunk_len_of.
  now apply py_int_nonneg, valid_product_nonneg.
Qed.

Lemma valid_fade_len (R : Z) (segment overlap : Q) :
  valid_config R segment overlap ->
  0 <= fade_len_of R overlap
  /\ (inject_Z (fade_len_of R overlap) <= overlap_frames_of R overlap)%Q.
Proof.
  intros H. unfold fade_len_of.
  destruct (py_int_nonneg _ (valid_overlap_frames_nonneg _ _ _ H)) as (H1 & H2 & _).
  now split.
Qed.

(** A positive first advance leaves room for the overlap inside the chunk. *)
Lemma first_advance_room (R : Z) (segment overlap : Q) :
  1 <= first_advance_of R segment overlap ->
  (inject_Z (first_advance_of R segment overlap) + overlap_frames_of R overlap
   <= inject_Z (chunk_len_of R segment overlap))%Q
  /\ (inject_Z (chunk_len_of R segment overlap)
      < inject_Z (first_advance_of R segment overlap) + 1
        + overlap_frames_of R overlap)%Q.
Proof.
  intros Ha. unfold first_advance_of in *.
  destruct (py_int_ge_1 _ Ha) as [H0 H1].
  destruct (py_int_nonneg _ H0) as (_ & _ & H2).
  rewrite inject_Z_plus in H2. change (inject_Z 1) with 1%Q in H2.
  split; lra.
Qed.

(** When the overlap is a whole number of frames the first advance is the
    chunk length minus the fade length. *)
Lemma first_advance_integral (R : Z) (segment overlap : Q) :
  (overlap_frames_of R overlap == inject_Z (fade_len_of R overlap))%Q ->
  first_advance_of R segment overlap
  = chunk_len_of R segment overlap - fade_len_of R overlap.
Proof.
  intros E. unfold first_advance_of.
  rewrite <- (py_int_inject (chunk_len_of R segment overlap - fade_len_of R overlap)).
  apply py_int_comp. rewrite inject_Z_minus, E. reflexivity.
Qed.

(** The variables on entry to the loop are those of iteration 0. *)
Lemma init_geom_inv (R : Z) (model : Model) (mix : Tensor3) (segment overlap : Q) :
  geom_inv (t3_len mix) (chunk_len_of R segment overlap)
           (first_advance_of R segment overlap) (fade_len_of R overlap)
           0 (init_state R model mix segment overlap).
Proof.
  unfold geom_inv, window_of, nth_window, init_state, end_at, fade_len_of.
  cbn [st_start st_end st_fade fade_in_len fade_out_len start_at fade_in_at
       fade_out_at Z.of_nat].
  f_equal. lia.
Qed.

Lemma init_fade_inv (R : Z) (model : Model) (mix : Tensor3) (segment overlap : Q) :
  fade_inv (t3_len mix) (chunk_len_of R segment overlap) (fade_len_of R overlap)
           0 (init_state R model mix segment overlap).
Proof.
  unfold fade_inv, init_state, end_at, fade_len_of.
  cbn [st_start st_end st_fade fade_in_len fade_out_len fade_in_at
       fade_out_at Z.of_nat].
  repeat split. lia.
Qed.

Lemma init_shape_inv (R : Z) (model : Model) (mix : Tensor3) (segment overlap : Q) :
  shape_inv (t3_batch mix) (List.length (sources model)) (t3_chan mix) (t3_len mix)
            (init_state R model mix segment overlap).
Proof. unfold shape_inv, init_state. simpl. repeat split. Qed.

(** On entry the loop condition compares the overlap with the length. *)
Lemma init_guard (R : Z) (model : Model) (mix : Tensor3) (segment overlap : Q) :
  loop_guard (t3_len mix) (overlap_frames_of R overlap)
             (init_state R model mix segment overlap) = true
  <-> (overlap_frames_of R overlap < inject_Z (t3_len mix))%Q.
Proof.
  rewrite guard_true_iff. unfold init_state. simpl.
  setoid_replace (inject_Z 0 + overlap_frames_of R overlap)%Q
    with (overlap_frames_of R overlap) by (change (inject_Z 0) with 0%Q; ring).
  reflexivity.
Qed.

(** Closed facts on concrete configurations. *)
Ltac config_tac :=
  unfold valid_config; repeat split;
  first [ lia | lra | vm_compute; reflexivity | vm_compute; discriminate ].

(** ** The derived frame counts *)




(** ** Window lengths *)

(** C1 (as stated, refuted): sample rate 8, segment 1, overlap 1/4 is a valid
    configuration with chunk length 10; on a signal of 30 frames three
    windows are emitted and the second, which is not the last, spans 12
    frames. *)
Lemma second_window_longer_than_chunk :
  valid_config 8 1 (1 # 4)
  /\ chunk_len_of 8 1 (1 # 4) = 10
  /\ r_calls (separate_sources 8 10 identity_model (const3 1 1 30 1) 1 (1 # 4))
     = [mkWindow 0 10 0 2; mkWindow 8 20 2 2; mkWindow 18 30 2 0]
  /\ r_status (separate_sources 8 10 identity_model (const3 1 1 30 1) 1 (1 # 4))
     = Returned
  /\ w_end (mkWindow 8 20 2 2) - w_start (mkWindow 8 20 2 2) <> 10.
Proof.
  split; [ config_tac | ].
  repeat split; try (vm_compute; reflexivity).
  vm_compute. discriminate.
Qed.

(** C1 (amended): for every valid configuration whose first advance
    [int(chunk_len - overlap_frames)] is at least 1, the first window is
    [0, C) and spans exactly C frames; every later window spans
    [C + (C - first advance)] frames, which is [C + V] when the overlap is a
    whole number of frames; and every window that is not the last lies
    inside the signal, so its slice has that many frames. *)
Theorem window_lengths (R : Z) (segment overlap : Q) (model : Model)
    (mix : Tensor3) (fuel : nat) :
  valid_config R segment overlap ->
  1 <= first_advance_of R segment overlap ->
  forall k w,
    nth_error (r_calls (separate_sources R fuel model mix segment overlap)) k
    = Some w ->
    (k = O -> w_start w = 0 /\ w_end w = chunk_len_of R segment overlap)
    /\ (k <> O ->
        w_end w - w_start w
        = chunk_len_of R segment overlap
          + (chunk_len_of R segment overlap - first_advance_of R segment overlap))
    /\ ((overlap_frames_of R overlap == inject_Z (fade_len_of R overlap))%Q ->
        chunk_len_of R segment overlap - first_advance_of R segment overlap
        = fade_len_of R overlap)
    /\ ((S k < List.length
                 (r_calls (separate_sources R fuel model mix segment overlap)))%nat ->
        0 <= w_start w /\ w_end w <= t3_len mix).
Proof.
  intros Hv Ha k w Hk.
  pose proof (valid_chunk_len_nonneg _ _ _ Hv) as HC.
  pose proof (first_advance_room _ _ _ Ha) as [Hroom1 Hroom2].
  set (C := chunk_len_of R segment overlap) in *.
  set (a := first_advance_of R segment overlap) in *.
  set (ov := overlap_frames_of R overlap) in *.
  set (V := fade_len_of R overlap) in *.
  set (L := t3_len mix) in *.
  assert (Hstep : forall j st st', geom_inv L C a V j st ->
            loop_guard L ov st = true -> body model L C ov st = Ok st' ->
            geom_inv L C a V (S j) st').
  { intros j st st'. apply geom_inv_step; assumption. }
  unfold separate_sources in *. fold C ov L in Hk |- *.
  pose proof (init_geom_inv R model mix segment overlap) as H0.
  fold C a V L in H0.
  destruct (loop_calls_inv model L C ov _ Hstep fuel 0%nat _ H0 k w Hk)
    as (st_k & Hinv & Hg & ->).
  simpl in Hinv. unfold geom_inv in Hinv. rewrite Hinv.
  unfold nth_window. cbn [w_start w_end].
  assert (Hstart : 0 <= start_at C a k).
  { destruct k; cbn [start_at]; nia. }
  split; [ | split; [ | split ] ].
  - intros ->. unfold end_at. cbn [start_at Z.of_nat]. lia.
  - intros Hne. destruct k as [ | k]; [congruence | ].
    unfold end_at. cbn [start_at]. rewrite Nat2Z.inj_succ. lia.
  - intros E. pose proof (first_advance_integral R segment overlap E) as Ea.
    fold C a V in Ea. lia.
  - intros Hlen. split; [exact Hstart | ].
    destruct (nth_error (r_calls (loop model L C ov fuel
                (init_state R model mix segment overlap))) (S k)) as [w' | ] eqn:Hk'.
    2:{ apply nth_error_None in Hk'. lia. }
    destruct (loop_calls_next model L C ov _ Hstep fuel 0%nat _ H0 k _ w' Hk Hk')
      as (s1 & s2 & Hinv1 & Hg1 & _ & Hb1 & Hg2 & _).
    pose proof (Hstep _ _ _ Hinv1 Hg1 Hb1) as Hinv2.
    apply guard_true_iff in Hg2.
    unfold geom_inv, window_of, nth_window in Hinv2.
    injection Hinv2 as Hs2 _ _ _. rewrite Hs2 in Hg2.
    simpl Nat.add in Hg2. cbn [start_at] in Hg2.
    unfold end_at. apply inject_Z_lt_succ.
    replace ((Z.of_nat k + 1) * C) with (Z.of_nat k * C + C) by lia.
    rewrite inject_Z_plus in Hg2 |- *. lra.
Qed.

Lemma window_lengths_witness :
  w_end (mkWindow 8 20 2 2) - w_start (mkWindow 8 20 2 2)
  = chunk_len_of 8 1 (1 # 4)
    + (chunk_len_of 8 1 (1 # 4) - first_advance_of 8 1 (1 # 4))
  /\ chunk_len_of 8 1 (1 # 4) - first_advance_of 8 1 (1 # 4)
     = fade_len_of 8 (1 # 4)
  /\ 0 <= w_start (mkWindow 8 20 2 2)
  /\ w_end (mkWindow 8 20 2 2) <= t3_len (const3 1 1 30 1).
Proof.
  assert (Hv : valid_config 8 1 (1 # 4)) by config_tac.
  assert (Ha : 1 <= first_advance_of 8 1 (1 # 4)) by (vm_compute; discriminate).
  assert (Hk : nth_error (r_calls (separate_sources 8 10 identity_model
                                     (const3 1 1 30 1) 1 (1 # 4))) 1
               = Some (mkWindow 8 20 2 2)) by (vm_compute; reflexivity).
  destruct (window_lengths 8 1 (1 # 4) identity_model (const3 1 1 30 1) 10
              Hv Ha 1%nat (mkWindow 8 20 2 2) Hk) as (_ & H2 & H3 & H4).
  split; [ apply H2; discriminate | ].
  split; [ apply H3; vm_compute; reflexivity | ].
  apply H4. vm_compute. apply le_n.
Defined.

(** ** Fade lengths *)

(** C4 (as stated, refuted): in the valid configuration sample rate 8,
    segment 1, overlap 1/4 (chunk length 10, overlap 2 frames) a signal of 2
    frames is at most one chunk long, and no window is emitted for it. *)
Lemma short_signal_no_window :
  valid_config 8 1 (1 # 4)
  /\ t3_len (const3 1 1 2 1) <= chunk_len_of 8 1 (1 # 4)
  /\ r_calls (separate_sources 8 10 identity_model (const3 1 1 2 1) 1 (1 # 4)) = []
  /\ r_status (separate_sources 8 10 identity_model (const3 1 1 2 1) 1 (1 # 4))
     = Returned.
Proof.
  split; [ config_tac | ].
  repeat split; vm_compute; try reflexivity. discriminate.
Qed.

(** C4 (amended): for every valid configuration, the first window is
    processed with fade-in length 0 and every later window with fade-in
    length V; every window after the first is processed with fade-out length
    0 when its end index is at least L and with fade-out length V otherwise.
    No window is emitted when L is at most the overlap [overlap * sample_rate];
    when the overlap is a whole number of frames, smaller than L, and L is at
    most one chunk length, exactly one window [0, C) is emitted and its
    fade-in length is 0. *)
Theorem fade_lengths (R : Z) (segment overlap : Q) (model : Model)
    (mix : Tensor3) (fuel : nat) :
  valid_config R segment overlap ->
  (forall k w,
     nth_error (r_calls (separate_sources R fuel model mix segment overlap)) k
     = Some w ->
     (k = O -> w_fade_in w = 0)
     /\ (k <> O ->
         w_fade_in w = fade_len_of R overlap
         /\ (t3_len mix <= w_end w -> w_fade_out w = 0)
         /\ (w_end w < t3_len mix -> w_fade_out w = fade_len_of R overlap)))
  /\ ((inject_Z (t3_len mix) <= overlap_frames_of R overlap)%Q ->
      r_calls (separate_sources R fuel model mix segment overlap) = [])
  /\ ((overlap_frames_of R overlap == inject_Z (fade_len_of R overlap))%Q ->
      (overlap_frames_of R overlap < inject_Z (t3_len mix))%Q ->
      t3_len mix <= chunk_len_of R segment overlap ->
      fuel <> O ->
      exists fo,
        r_calls (separate_sources R fuel model mix segment overlap)
        = [mkWindow 0 (chunk_len_of R segment overlap) 0 fo]).
Proof.
  intros Hv.
  pose proof (valid_chunk_len_nonneg _ _ _ Hv) as HC.
  unfold separate_sources.
  set (C := chunk_len_of R segment overlap) in *.
  set (ov := overlap_frames_of R overlap) in *.
  set (V := fade_len_of R overlap) in *.
  set (L := t3_len mix) in *.
  set (st0 := init_state R model mix segment overlap).
  split; [ | split ].
  - intros k w Hk.
    assert (Hstep : forall j st st', fade_inv L C V j st ->
              loop_guard L ov st = true -> body model L C ov st = Ok st' ->
              fade_inv L C V (S j) st').
    { intros j st st'. apply fade_inv_step. exact HC. }
    destruct (loop_calls_inv model L C ov _ Hstep fuel 0%nat st0
                (init_fade_inv R model mix segment overlap) k w Hk)
      as (st_k & (_ & He & Hi & Ho) & _ & ->).
    simpl Nat.add in *. unfold window_of. cbn [w_fade_in w_fade_out w_end].
    rewrite He, Hi, Ho. split.
    + intros ->. reflexivity.
    + intros Hne. destruct k as [ | k]; [congruence | ].
      cbn [fade_in_at fade_out_at].
      destruct (Z.geb_spec (end_at C (S k)) L); repeat split; intros; try reflexivity; lia.
  - intros Hshort. rewrite loop_guard_false; [reflexivity | ].
    apply Bool.not_true_iff_false. intros Hg.
    apply (init_guard R model mix segment overlap) in Hg.
    fold ov L in Hg. lra.
  - intros Eint Hlong Hone Hfuel.
    destruct fuel as [ | fuel]; [congruence | ].
    assert (Hg : loop_guard L ov st0 = true).
    { apply (init_guard R model mix segment overlap). exact Hlong. }
    simpl. rewrite Hg.
    destruct (body model L C ov st0) as [st' | e] eqn:Hb; simpl.
    + exists V. rewrite loop_guard_false; [reflexivity | ].
      apply guard_false_iff.
      apply body_advance in Hb.
      destruct Hb as (chunk' & out & faded & final' & _ & _ & _ & ->).
      unfold advance. cbn [st_start]. unfold st0 at 1 2. unfold init_state.
      cbn [st_start]. rewrite Z.eqb_refl.
      pose proof (first_advance_integral R segment overlap Eint) as Ea.
      unfold first_advance_of in Ea. fold C ov V in Ea. rewrite Ea.
      replace (0 + (C - V)) with (C - V) by lia.
      rewrite inject_Z_minus, Eint. fold V.
      apply inject_Z_le in Hone. lra.
    + exists V. reflexivity.
Qed.

Lemma fade_lengths_witness :
  (w_fade_in (mkWindow 18 30 2 0) = fade_len_of 8 (1 # 4)
   /\ w_fade_out (mkWindow 18 30 2 0) = 0)
  /\ w_fade_out (mkWindow 8 20 2 2) = fade_len_of 8 (1 # 4)
  /\ r_calls (separate_sources 8 10 identity_model (const3 1 1 2 1) 1 (1 # 4)) = []
  /\ exists fo,
       r_calls (separate_sources 8 10 identity_model (const3 1 1 10 1) 1 (1 # 4))
       = [mkWindow 0 (chunk_len_of 8 1 (1 # 4)) 0 fo].
Proof.
  assert (Hv : valid_config 8 1 (1 # 4)) by config_tac.
  destruct (fade_lengths 8 1 (1 # 4) identity_model (const3 1 1 30 1) 10 Hv)
    as (H30 & _).
  destruct (fade_lengths 8 1 (1 # 4) identity_model (const3 1 1 2 1) 10 Hv)
    as (_ & H2 & _).
  destruct (fade_lengths 8 1 (1 # 4) identity_model (const3 1 1 10 1) 10 Hv)
    as (_ & _ & H10).
  assert (Hk2 : nth_error (r_calls (separate_sources 8 10 identity_model
                                      (const3 1 1 30 1) 1 (1 # 4))) 2
                = Some (mkWindow 18 30 2 0)) by (vm_compute; reflexivity).
  assert (Hk1 : nth_error (r_calls (separate_sources 8 10 identity_model
                                      (const3 1 1 30 1) 1 (1 # 4))) 1
                = Some (mkWindow 8 20 2 2)) by (vm_compute; reflexivity).
  destruct (H30 2%nat _ Hk2) as (_ & Hl).
  destruct (H30 1%nat _ Hk1) as (_ & Hm).
  assert (N2 : 2%nat <> O) by discriminate.
  assert (N1 : 1%nat <> O) by discriminate.
  destruct (Hl N2) as (Hi & Ho & _). destruct (Hm N1) as (_ & _ & Ho').
  split; [ split; [ exact Hi | apply Ho; vm_compute; discriminate ] | ].
  split; [ apply Ho'; vm_compute; reflexivity | ].
  split; [ apply H2; vm_compute; discriminate | ].
  apply H10.
  - vm_compute. reflexivity.
  - vm_compute. reflexivity.
  - vm_compute. discriminate.
  - discriminate.
Defined.

(** ** What a run writes *)

Lemma t3_same_refl (x : Tensor3) : t3_same x x.
Proof. unfold t3_same. auto. Qed.

Lemma t3_same_trans (x y z : Tensor3) : t3_same x y -> t3_same y z -> t3_same x z.
Proof.
  intros (B1 & C1 & L1 & D1) (B2 & C2 & L2 & D2). unfold t3_same.
  repeat split; try congruence.
  intros i j t Hi Hj Ht. rewrite D1 by assumption. apply D2; congruence.
Qed.

(** Writing back through a view the data that the view already holds leaves
    the storage as it was. *)
Lemma write_view3_same (m v : Tensor3) (start stop : Z) :
  t3_same v (slice3 m start stop) -> t3_same (write_view3 m start stop v) m.
Proof.
  intros (B & Ch & Ln & D). unfold t3_same, write_view3. simpl in *.
  repeat split. intros i j t Hi Hj Ht.
  destruct (Z.leb_spec (slice_lo (t3_len m) start) t) as [Hlo | Hlo]; simpl; [ | reflexivity ].
  destruct (Z.ltb_spec t (slice_lo (t3_len m) start + slice_len (t3_len m) start stop))
    as [Hhi | Hhi]; [ | reflexivity ].
  rewrite D by (try rewrite B; try rewrite Ch; try rewrite Ln; (assumption || lia)).
  f_equal. lia.
Qed.

Lemma iadd_slice_shape (final out final' : Tensor4) (start stop : Z) :
  iadd_slice final start stop out = Ok final' ->
  t4_batch final' = t4_batch final /\ t4_src final' = t4_src final
  /\ t4_chan final' = t4_chan final /\ t4_len final' = t4_len final.
Proof.
  unfold iadd_slice. destruct (_ && _); [ | discriminate ].
  intros H. injection H as <-. simpl. auto.
Qed.

(** Outside the frames selected by the slice the accumulator keeps its
    samples. *)
Lemma iadd_slice_outside (final out final' : Tensor4) (start stop : Z)
    (b s c : nat) (t : Z) :
  iadd_slice final start stop out = Ok final' ->
  ~ (slice_lo (t4_len final) start <= t
     < slice_lo (t4_len final) start + slice_len (t4_len final) start stop) ->
  t4_data final' b s c t = t4_data final b s c t.
Proof.
  unfold iadd_slice. destruct (_ && _); [ | discriminate ].
  intros H Hout. injection H as <-. simpl.
  destruct (Z.leb_spec (slice_lo (t4_len final) start) t); simpl; [ | reflexivity ].
  destruct (Z.ltb_spec t (slice_lo (t4_len final) start
                          + slice_len (t4_len final) start stop)); [ lia | reflexivity ].
Qed.

Section Effects.

Variable model : Model.
Variable L C : Z.
Variable ov : Q.

Local Abbreviation loop' := (loop model L C ov).
Local Abbreviation body' := (body model L C ov).

Lemma state_at_raise_final (st : State) :
  st_final (state_at_raise model st) = st_final st.
Proof.
  unfold state_at_raise. destruct (forward model _) as [[chunk' out] | e]; reflexivity.
Qed.

Lemma state_at_raise_mix (st : State) :
  forward_pure model -> t3_same (st_mix (state_at_raise model st)) (st_mix st).
Proof.
  intros Hpure. unfold state_at_raise.
  destruct (forward model _) as [[chunk' out] | e] eqn:Hf; simpl.
  - apply write_view3_same. exact (Hpure _ _ _ Hf).
  - apply t3_same_refl.
Qed.

Lemma body_final_shape (st st' : State) :
  body' st = Ok st' ->
  t4_batch (st_final st') = t4_batch (st_final st)
  /\ t4_src (st_final st') = t4_src (st_final st)
  /\ t4_chan (st_final st') = t4_chan (st_final st)
  /\ t4_len (st_final st') = t4_len (st_final st).
Proof.
  intros Hb. apply body_advance in Hb.
  destruct Hb as (chunk' & out & faded & final' & _ & _ & Ha & ->).
  unfold advance. simpl. now apply iadd_slice_shape in Ha.
Qed.

(** The shape of [final] never changes. *)
Lemma loop_final_shape (fuel : nat) (st : State) :
  t4_batch (st_final (r_state (loop' fuel st))) = t4_batch (st_final st)
  /\ t4_src (st_final (r_state (loop' fuel st))) = t4_src (st_final st)
  /\ t4_chan (st_final (r_state (loop' fuel st))) = t4_chan (st_final st)
  /\ t4_len (st_final (r_state (loop' fuel st))) = t4_len (st_final st).
Proof.
  revert st. induction fuel as [ | fuel IH]; intros st; simpl.
  - destruct (loop_guard L ov st); simpl; auto.
  - destruct (loop_guard L ov st); simpl; auto.
    destruct (body' st) as [st' | e] eqn:Hb; simpl.
    + destruct (IH st') as (H1 & H2 & H3 & H4).
      destruct (body_final_shape _ _ Hb) as (G1 & G2 & G3 & G4).
      repeat split; congruence.
    + rewrite state_at_raise_final. auto.
Qed.

(** With a model that does not write into its argument, [mix] holds the
    same samples throughout the run. *)
Lemma loop_mix_same (fuel : nat) (st : State) :
  forward_pure model -> t3_same (st_mix (r_state (loop' fuel st))) (st_mix st).
Proof.
  intros Hpure. revert st. induction fuel as [ | fuel IH]; intros st; simpl.
  - destruct (loop_guard L ov st); simpl; apply t3_same_refl.
  - destruct (loop_guard L ov st); simpl; [ | apply t3_same_refl ].
    destruct (body' st) as [st' | e] eqn:Hb; simpl;
      [ | now apply state_at_raise_mix ].
    apply (t3_same_trans _ (st_mix st')); [apply IH | ].
    apply body_advance in Hb.
    destruct Hb as (chunk' & out & faded & final' & Hf & _ & _ & ->).
    unfold advance. simpl. apply write_view3_same. exact (Hpure _ _ _ Hf).
Qed.

(** A frame that no call selects keeps in [final] the sample it had. *)
Lemma loop_final_frame (fuel : nat) (st : State) (b s c : nat) (t : Z) :
  (forall w, In w (r_calls (loop' fuel st)) ->
             ~ in_slice (t4_len (st_final st)) w t) ->
  t4_data (st_final (r_state (loop' fuel st))) b s c t
  = t4_data (st_final st) b s c t.
Proof.
  revert st. induction fuel as [ | fuel IH]; intros st; simpl.
  - destruct (loop_guard L ov st); simpl; auto.
  - destruct (loop_guard L ov st); simpl; auto.
    destruct (body' st) as [st' | e] eqn:Hb; simpl;
      [ | intros _; now rewrite state_at_raise_final ].
    intros Hout.
    destruct (body_final_shape _ _ Hb) as (_ & _ & _ & Hlen).
    rewrite IH.
    + apply body_advance in Hb.
      destruct Hb as (chunk' & out & faded & final' & _ & _ & Ha & ->).
      unfold advance. simpl.
      apply (iadd_slice_outside _ _ _ _ _ b s c t Ha).
      apply (Hout (window_of st)). now left.
    + intros w Hw. rewrite Hlen. apply Hout. now right.
Qed.

End Effects.

(** ** Runs that stop on entry *)

(** When the signal is no longer than the overlap the loop is not entered. *)
Lemma entry_exit (R : Z) (segment overlap : Q) (model : Model)
    (mix : Tensor3) (fuel : nat) :
  (inject_Z (t3_len mix) <= overlap_frames_of R overlap)%Q ->
  r_status (separate_sources R fuel model mix segment overlap) = Returned
  /\ r_calls (separate_sources R fuel model mix segment overlap) = []
  /\ r_final (separate_sources R fuel model mix segment overlap)
     = zeros4 (t3_batch mix) (List.length (sources model)) (t3_chan mix)
              (t3_len mix).
Proof.
  intros Hshort. unfold separate_sources, r_final.
  rewrite loop_guard_false; [ simpl; auto | ].
  apply Bool.not_true_iff_false. intros Hg.
  apply (init_guard R model mix segment overlap) in Hg. lra.
Qed.

(** ** Configurations outside the valid range *)

(** C5 (as stated, refuted): with overlap 1.0 (sample rate 8, segment 1, 40
    frames) the run slices three windows, calls the model on each and
    returns; with segment 0, or with overlap -1/4, the model is called on a
    first window and the failure that follows is the run-time error of the
    fade. *)
Lemma invalid_configuration_runs :
  ~ valid_config 8 1 1
  /\ r_calls (separate_sources 8 10 identity_model (const3 1 1 40 1) 1 1)
     = [mkWindow 0 16 0 8; mkWindow 8 32 8 8; mkWindow 24 48 8 0]
  /\ r_status (separate_sources 8 10 identity_model (const3 1 1 40 1) 1 1)
     = Returned
  /\ r_calls (separate_sources 8 10 identity_model (const3 1 1 40 1) 0 (1 # 4))
     = [mkWindow 0 0 0 2]
  /\ r_status (separate_sources 8 10 identity_model (const3 1 1 40 1) 0 (1 # 4))
     = Raised RuntimeError
  /\ r_calls (separate_sources 8 10 identity_model (const3 1 1 40 1) 1 (- (1 # 4)))
     = [mkWindow 0 6 0 (-2)]
  /\ r_status (separate_sources 8 10 identity_model (const3 1 1 40 1) 1 (- (1 # 4)))
     = Raised RuntimeError.
Proof.
  split.
  - intros (_ & _ & _ & H). lra.
  - repeat split; vm_compute; reflexivity.
Qed.

(** C5 (amended): [separate_sources] does not check [segment] or [overlap].
    For every value of the two, when the signal is longer than
    [overlap * sample_rate] the first thing a run does is to slice the window
    [0, C) and call the model on it, with fade lengths 0 and
    [int(overlap * sample_rate)]; when it is not, the run returns at once
    without a call.  No configuration error is raised in either case. *)
Theorem no_configuration_check (R : Z) (segment overlap : Q) (model : Model)
    (mix : Tensor3) (fuel : nat) :
  ((overlap_frames_of R overlap < inject_Z (t3_len mix))%Q ->
   exists rest,
     r_calls (separate_sources R (S fuel) model mix segment overlap)
     = mkWindow 0 (chunk_len_of R segment overlap) 0 (fade_len_of R overlap)
       :: rest)
  /\ ((inject_Z (t3_len mix) <= overlap_frames_of R overlap)%Q ->
      separate_sources R fuel model mix segment overlap
      = mkRun [] (init_state R model mix segment overlap) Returned).
Proof.
  unfold separate_sources. split.
  - intros Hlong. apply loop_guard_true.
    now apply (init_guard R model mix segment overlap).
  - intros Hshort. apply loop_guard_false.
    apply Bool.not_true_iff_false. intros Hg.
    apply (init_guard R model mix segment overlap) in Hg. lra.
Qed.

Lemma no_configuration_check_witness :
  (exists rest,
     r_calls (separate_sources 8 10 identity_model (const3 1 1 40 1) 1 1)
     = mkWindow 0 (chunk_len_of 8 1 1) 0 (fade_len_of 8 1) :: rest)
  /\ separate_sources 8 10 identity_model (const3 1 1 8 1) 1 1
     = mkRun [] (init_state 8 identity_model (const3 1 1 8 1) 1 1) Returned.
Proof.
  split.
  - apply (no_configuration_check 8 1 1 identity_model (const3 1 1 40 1) 9).
    vm_compute. reflexivity.
  - apply (no_configuration_check 8 1 1 identity_model (const3 1 1 8 1) 10).
    vm_compute. discriminate.
Defined.

(** ** Short signals *)

(** C8 (as stated, refuted): in a valid configuration with an overlap of 2
    frames, a signal of 0 frames and a signal of 1 frame both make the run
    return normally, without a call of the model. *)
Lemma short_signal_no_error :
  valid_config 8 1 (1 # 4)
  /\ overlap_frames_of 8 (1 # 4) == 2
  /\ separate_sources 8 10 identity_model (const3 1 1 0 1) 1 (1 # 4)
     = mkRun [] (init_state 8 identity_model (const3 1 1 0 1) 1 (1 # 4)) Returned
  /\ separate_sources 8 10 identity_model (const3 1 1 1 1) 1 (1 # 4)
     = mkRun [] (init_state 8 identity_model (const3 1 1 1 1) 1 (1 # 4)) Returned.
Proof.
  split; [ config_tac | ].
  split; [ reflexivity | ].
  split; reflexivity.
Qed.

(** C8 (amended): for every valid configuration, on a signal of zero frames
    or of at most [overlap * sample_rate] frames the run returns normally,
    without calling the model, and the tensor returned is the all-zero tensor
    of shape (batch, sources, channels, length). *)
Theorem short_signal_returns_zeros (R : Z) (segment overlap : Q) (model : Model)
    (mix : Tensor3) (fuel : nat) :
  valid_config R segment overlap ->
  t3_len mix = 0 \/ (inject_Z (t3_len mix) <= overlap_frames_of R overlap)%Q ->
  r_status (separate_sources R fuel model mix segment overlap) = Returned
  /\ r_calls (separate_sources R fuel model mix segment overlap) = []
  /\ r_final (separate_sources R fuel model mix segment overlap)
     = zeros4 (t3_batch mix) (List.length (sources model)) (t3_chan mix)
              (t3_len mix).
Proof.
  intros Hv Hshort.
  assert (Hle : (inject_Z (t3_len mix) <= overlap_frames_of R overlap)%Q).
  { destruct Hshort as [-> | H]; [ | exact H ].
    apply (valid_overlap_frames_nonneg R segment overlap Hv). }
  destruct (entry_exit R segment overlap model mix fuel Hle)
    as (H1 & H2 & H3).
  auto.
Qed.

Lemma short_signal_returns_zeros_witness :
  r_status (separate_sources 8 10 identity_model (const3 1 1 1 1) 1 (1 # 4))
  = Returned
  /\ r_calls (separate_sources 8 10 identity_model (const3 1 1 1 1) 1 (1 # 4)) = []
  /\ r_final (separate_sources 8 10 identity_model (const3 1 1 1 1) 1 (1 # 4))
     = zeros4 1 1 1 1.
Proof.
  apply (short_signal_returns_zeros 8 1 (1 # 4) identity_model (const3 1 1 1 1) 10).
  - config_tac.
  - right. vm_compute. discriminate.
Defined.

(** ** The input signal and the accumulator *)


Lemma identity_model_pure : forward_pure identity_model.
Proof.
  intros x x' out H. simpl in H. injection H as <- _. apply t3_same_refl.
Qed.


(** ** The shape of the result *)

(** C10: whenever the run returns, the tensor returned has shape
    (batch, number of sources, channels, length) for an input of shape
    (batch, channels, length); when no window was emitted it is the all-zero
    tensor of that shape; and no window is emitted when the length is at most
    the fade length V of a non-negative overlap. *)
Theorem returned_shape (R : Z) (segment overlap : Q) (model : Model)
    (mix : Tensor3) (fuel : nat) :
  r_status (separate_sources R fuel model mix segment overlap) = Returned ->
  (t4_batch (r_final (separate_sources R fuel model mix segment overlap))
   = t3_batch mix
   /\ t4_src (r_final (separate_sources R fuel model mix segment overlap))
      = List.length (sources model)
   /\ t4_chan (r_final (separate_sources R fuel model mix segment overlap))
      = t3_chan mix
   /\ t4_len (r_final (separate_sources R fuel model mix segment overlap))
      = t3_len mix)
  /\ (r_calls (separate_sources R fuel model mix segment overlap) = [] ->
      r_final (separate_sources R fuel model mix segment overlap)
      = zeros4 (t3_batch mix) (List.length (sources model)) (t3_chan mix)
               (t3_len mix))
  /\ ((0 <= overlap_frames_of R overlap)%Q ->
      t3_len mix <= fade_len_of R overlap ->
      r_calls (separate_sources R fuel model mix segment overlap) = []).
Proof.
  intros _. split; [ | split ].
  - unfold separate_sources, r_final.
    apply (loop_final_shape model _ _ _ fuel
             (init_state R model mix segment overlap)).
  - unfold separate_sources, r_final. intros Hnil.
    rewrite loop_no_calls by exact Hnil. reflexivity.
  - intros Hov Hlen.
    apply (entry_exit R segment overlap model mix fuel).
    destruct (py_int_nonneg _ Hov) as (_ & HV & _).
    apply inject_Z_le in Hlen. unfold fade_len_of in Hlen. lra.
Qed.

Lemma returned_shape_witness :
  (t4_batch (r_final (separate_sources 8 10 identity_model (const3 1 2 30 1)
                        1 (1 # 4))) = 1%nat
   /\ t4_src (r_final (separate_sources 8 10 identity_model (const3 1 2 30 1)
                         1 (1 # 4))) = 1%nat
   /\ t4_chan (r_final (separate_sources 8 10 identity_model (const3 1 2 30 1)
                          1 (1 # 4))) = 2%nat
   /\ t4_len (r_final (separate_sources 8 10 identity_model (const3 1 2 30 1)
                         1 (1 # 4))) = 30)
  /\ r_final (separate_sources 8 10 identity_model (const3 1 2 2 1) 1 (1 # 4))
     = zeros4 1 1 2 2.
Proof.
  split.
  - apply (returned_shape 8 1 (1 # 4) identity_model (const3 1 2 30 1) 10).
    vm_compute. reflexivity.
  - destruct (returned_shape 8 1 (1 # 4) identity_model (const3 1 2 2 1) 10)
      as (_ & Hz & Hc).
    + vm_compute. reflexivity.
    + apply Hz. apply Hc.
      * vm_compute. discriminate.
      * vm_compute. discriminate.
Defined.

(** ** Termination and coverage *)

Section Coverage.

Variable model : Model.
Variable L C : Z.
Variable ov : Q.
Variables b c : nat.

Local Abbreviation a := (py_int (inject_Z C - ov)%Q).
Local Abbreviation V := (py_int ov).
Local Abbreviation S' := (List.length (sources model)).
Local Abbreviation loop' := (loop model L C ov).
Local Abbreviation body' := (body model L C ov).
Local Abbreviation guard' := (loop_guard L ov).

Hypothesis model_ok : adapter_ok model.
Hypothesis ov_nonneg : (0 <= ov)%Q.
Hypothesis advance_pos : 1 <= a.

Lemma overlap_room : (inject_Z a + ov <= inject_Z C)%Q /\ a <= C /\ 0 <= V /\ V + a <= C.
Proof.
  destruct (py_int_ge_1 _ advance_pos) as [H0 H1].
  destruct (py_int_nonneg _ ov_nonneg) as (HV0 & HV1 & _).
  assert (H2 : (inject_Z a + ov <= inject_Z C)%Q) by lra.
  split; [exact H2 | ]. split; [ | split; [exact HV0 | ] ].
  - apply inject_Z_le. lra.
  - apply inject_Z_le. rewrite inject_Z_plus. lra.
Qed.

Lemma start_at_bounds (k : nat) :
  Z.of_nat k <= start_at C a k /\ start_at C a k <= Z.of_nat k * C
  /\ start_at C a k <= end_at C k.
Proof.
  destruct overlap_room as (_ & HaC & _ & _). unfold end_at.
  pose proof advance_pos as Ha.
  destruct k as [ | k]; cbn [start_at].
  - change (Z.of_nat 0) with 0. lia.
  - rewrite Nat2Z.inj_succ. nia.
Qed.

(** Inside the loop, under the invariants, one iteration does not raise. *)
Lemma body_ok (k : nat) (st : State) :
  geom_inv L C a V k st -> shape_inv b S' c L st -> guard' st = true ->
  exists st', body' st = Ok st' /\ shape_inv b S' c L st'.
Proof.
  intros Hinv (Hb3 & Hc3 & Hl3 & Hb4 & Hs4 & Hc4 & Hl4) Hg.
  unfold geom_inv, window_of, nth_window in Hinv. injection Hinv as Hs He Hi Ho.
  destruct overlap_room as (Hroom & HaC & HV0 & HVa).
  destruct (start_at_bounds k) as (Hk1 & Hk2 & Hk3).
  destruct (py_int_nonneg _ ov_nonneg) as (_ & HV1 & _).
  apply guard_true_iff in Hg.
  assert (HsL : st_start st < L).
  { apply inject_Z_lt. lra. }
  assert (Hclip : slice_lo L (st_start st) = st_start st
                  /\ slice_len L (st_start st) (st_end st)
                     = Z.min (st_end st) L - st_start st).
  { apply slice_len_clipped; lia. }
  destruct Hclip as [Hlo Hlen].
  assert (HVn : V <= slice_len L (st_start st) (st_end st)).
  { rewrite Hlen. destruct (Z.le_gt_cases (st_end st) L) as [HeL | HeL].
    - rewrite Z.min_l by lia. rewrite Hs, He. unfold end_at.
      destruct k as [ | k]; cbn [start_at]; [lia | ].
      rewrite Nat2Z.inj_succ. nia.
    - rewrite Z.min_r by lia.
      assert (H : (inject_Z (st_start st + V) < inject_Z L)%Q).
      { rewrite inject_Z_plus. lra. }
      apply -> inject_Z_lt in H. lia. }
  unfold body.
  destruct (model_ok (slice3 (st_mix st) (st_start st) (st_end st)))
    as (chunk' & out & Hf & Ob & Os & Oc & Ol).
  rewrite Hf. simpl in Ob, Oc, Ol. rewrite Hl3 in Ol.
  assert (Hfade : fade_sizes_ok (st_fade st) (t4_len out) = true).
  { unfold fade_sizes_ok. rewrite Hi, Ho, Ol.
    assert (Hfi : 0 <= fade_in_at V k <= V) by (destruct k; simpl; lia).
    assert (Hfo : 0 <= fade_out_at L C V k <= V).
    { destruct k; cbn [fade_out_at]; [lia | ].
      destruct (end_at C (S k) >=? L); lia. }
    repeat (apply andb_true_intro; split); apply Z.leb_le; lia. }
  unfold fade_forward. rewrite Hfade.
  unfold iadd_slice. cbn [t4_batch t4_src t4_chan t4_len].
  rewrite Hl4, Ol, Ob, Os, Oc, Hb3, Hc3, Hb4, Hs4, Hc4.
  unfold bcast_ok_nat, bcast_ok_Z. rewrite !Nat.eqb_refl, Z.eqb_refl. simpl.
  eexists. split; [reflexivity | ].
  unfold shape_inv, advance. simpl. repeat split; assumption.
Qed.

(** From iteration [k] on, with enough fuel, the loop returns, and the
    windows it calls cover every frame from [k * C] to the end of the
    signal. *)
Lemma loop_covers (fuel : nat) :
  forall (k : nat) (st : State),
    geom_inv L C a V k st -> shape_inv b S' c L st ->
    (k = O -> guard' st = true) ->
    L <= Z.of_nat fuel + Z.of_nat k ->
    r_status (loop' fuel st) = Returned
    /\ forall t, Z.of_nat k * C <= t < L ->
                 exists w, In w (r_calls (loop' fuel st))
                           /\ in_window w t /\ in_slice L w t.
Proof.
  destruct overlap_room as (Hroom & HaC & HV0 & HVa).
  induction fuel as [ | fuel IH]; intros k st Hinv Hshape Hk0 Hfuel.
  - destruct (guard' st) eqn:Hg.
    + exfalso. apply guard_true_iff in Hg.
      unfold geom_inv, window_of, nth_window in Hinv. injection Hinv as Hs _ _ _.
      destruct (start_at_bounds k) as (Hk1 & _ & _).
      assert (st_start st < L) by (apply inject_Z_lt; lra). lia.
    + rewrite loop_guard_false by exact Hg. split; [reflexivity | ].
      intros t Ht. exfalso.
      destruct k as [ | k]; [ specialize (Hk0 eq_refl); congruence | ].
      apply guard_false_iff in Hg.
      unfold geom_inv, window_of, nth_window in Hinv. injection Hinv as Hs _ _ _.
      rewrite Hs in Hg. cbn [start_at] in Hg.
      assert (HL : L <= Z.of_nat k * C + C).
      { apply inject_Z_le. rewrite inject_Z_plus in Hg |- *. lra. }
      rewrite Nat2Z.inj_succ in Ht. lia.
  - destruct (guard' st) eqn:Hg.
    + destruct (body_ok k st Hinv Hshape Hg) as (st' & Hb & Hshape').
      assert (Hinv' : geom_inv L C a V (S k) st').
      { apply (geom_inv_step model L C ov k st); auto. lia. }
      assert (Hfuel' : L <= Z.of_nat fuel + Z.of_nat (S k)).
      { rewrite Nat2Z.inj_succ in *. lia. }
      assert (Hk0' : S k = O -> guard' st' = true) by discriminate.
      destruct (IH (S k) st' Hinv' Hshape' Hk0' Hfuel') as [IHs IHc].
      simpl. rewrite Hg, Hb. simpl. split; [exact IHs | ].
      intros t Ht.
      destruct (Z.lt_ge_cases t (end_at C k)) as [Hlt | Hge].
      * exists (window_of st). split; [now left | ].
        assert (Hw : in_window (window_of st) t).
        { rewrite Hinv. unfold in_window, nth_window. cbn [w_start w_end].
          destruct (start_at_bounds k) as (_ & Hk2 & _). lia. }
        split; [exact Hw | ].
        destruct (start_at_bounds k) as (Hk1 & Hk2 & Hk3).
        revert Hw. unfold in_window, in_slice. rewrite Hinv.
        unfold nth_window. cbn [w_start w_end]. intros Hw.
        assert (E : slice_lo L (start_at C a k) = start_at C a k
                    /\ slice_len L (start_at C a k) (end_at C k)
                       = Z.min (end_at C k) L - start_at C a k).
        { apply slice_len_clipped; lia. }
        destruct E as [E1 E2]. rewrite E1, E2. lia.
      * destruct (IHc t) as (w & Hin & Hw).
        { unfold end_at in Hge. rewrite Nat2Z.inj_succ. lia. }
        exists w. split; [now right | exact Hw].
    + rewrite loop_guard_false by exact Hg. split; [reflexivity | ].
      intros t Ht. exfalso.
      destruct k as [ | k]; [ specialize (Hk0 eq_refl); congruence | ].
      apply guard_false_iff in Hg.
      unfold geom_inv, window_of, nth_window in Hinv. injection Hinv as Hs _ _ _.
      rewrite Hs in Hg. cbn [start_at] in Hg.
      assert (HL : L <= Z.of_nat k * C + C).
      { apply inject_Z_le. rewrite inject_Z_plus in Hg |- *. lra. }
      rewrite Nat2Z.inj_succ in Ht. lia.
Qed.

End Coverage.

Lemma identity_model_ok : adapter_ok identity_model.
Proof.
  intros x. exists x, (unsqueeze x). simpl. repeat split.
Qed.

(** C6 (as stated, refuted): sample rate 10, segment 1, overlap 1/2 is a valid
    configuration with an overlap of 5 frames; on a signal of 3 frames the
    loop is not entered, so no window covers frame 0. *)
Lemma short_signal_not_covered :
  valid_config 10 1 (1 # 2)
  /\ 0 < t3_len (const3 1 1 3 1)
  /\ r_status (separate_sources 10 10 identity_model (const3 1 1 3 1) 1 (1 # 2))
     = Returned
  /\ ~ exists w,
         In w (r_calls (separate_sources 10 10 identity_model (const3 1 1 3 1)
                          1 (1 # 2)))
         /\ in_window w 0.
Proof.
  split; [ config_tac | ]. split; [ reflexivity | ]. split; [ reflexivity | ].
  intros (w & Hin & _). vm_compute in Hin. exact Hin.
Qed.

(** C6 (amended): for every valid configuration whose first advance
    [int(chunk_len - overlap_frames)] is at least 1, on a signal longer than
    [overlap * sample_rate] and with a model that does not raise and returns
    output shaped as its input, the run returns (given fuel for at least L
    iterations), its first window is [0, C), and every frame of [0, L) lies
    in the index range of a window that was called and in the frames that
    the window slices. *)
Theorem windows_cover (R : Z) (segment overlap : Q) (model : Model)
    (mix : Tensor3) (fuel : nat) :
  valid_config R segment overlap ->
  1 <= first_advance_of R segment overlap ->
  (overlap_frames_of R overlap < inject_Z (t3_len mix))%Q ->
  adapter_ok model ->
  t3_len mix <= Z.of_nat fuel ->
  r_status (separate_sources R fuel model mix segment overlap) = Returned
  /\ (exists rest,
        r_calls (separate_sources R fuel model mix segment overlap)
        = mkWindow 0 (chunk_len_of R segment overlap) 0 (fade_len_of R overlap)
          :: rest)
  /\ forall t, 0 <= t < t3_len mix ->
       exists w,
         In w (r_calls (separate_sources R fuel model mix segment overlap))
         /\ in_window w t /\ in_slice (t3_len mix) w t.
Proof.
  intros Hv Ha Hlong Hok Hfuel.
  pose proof (valid_overlap_frames_nonneg _ _ _ Hv) as Hov.
  assert (Hg : loop_guard (t3_len mix) (overlap_frames_of R overlap)
                 (init_state R model mix segment overlap) = true).
  { now apply (init_guard R model mix segment overlap). }
  destruct (loop_covers model (t3_len mix) (chunk_len_of R segment overlap)
              (overlap_frames_of R overlap) (t3_batch mix) (t3_chan mix)
              Hok Hov Ha fuel 0%nat (init_state R model mix segment overlap)
              (init_geom_inv R model mix segment overlap)
              (init_shape_inv R model mix segment overlap)
              (fun _ => Hg)) as [Hs Hc].
  { change (Z.of_nat 0) with 0. lia. }
  unfold separate_sources. split; [exact Hs | ]. split.
  - assert (Hpos : 0 < t3_len mix).
    { apply inject_Z_lt. change (inject_Z 0) with 0%Q. lra. }
    destruct fuel as [ | fuel]; [ simpl in Hfuel; lia | ].
    apply (loop_guard_true model _ _ _ fuel _ Hg).
  - intros t Ht. apply Hc. change (Z.of_nat 0) with 0. lia.
Qed.

Lemma windows_cover_witness :
  r_status (separate_sources 8 30 identity_model (const3 1 1 30 1) 1 (1 # 4))
  = Returned
  /\ (exists rest,
        r_calls (separate_sources 8 30 identity_model (const3 1 1 30 1) 1 (1 # 4))
        = mkWindow 0 (chunk_len_of 8 1 (1 # 4)) 0 (fade_len_of 8 (1 # 4)) :: rest)
  /\ exists w,
       In w (r_calls (separate_sources 8 30 identity_model (const3 1 1 30 1)
                        1 (1 # 4)))
       /\ in_window w 29 /\ in_slice (t3_len (const3 1 1 30 1)) w 29.
Proof.
  assert (Hv : valid_config 8 1 (1 # 4)) by config_tac.
  assert (Ha : 1 <= first_advance_of 8 1 (1 # 4)) by (vm_compute; discriminate).
  assert (Hl : (overlap_frames_of 8 (1 # 4)
                < inject_Z (t3_len (const3 1 1 30 1)))%Q)
    by (vm_compute; reflexivity).
  assert (Hf : t3_len (const3 1 1 30 1) <= Z.of_nat 30)
    by (vm_compute; discriminate).
  destruct (windows_cover 8 1 (1 # 4) identity_model (const3 1 1 30 1) 30
              Hv Ha Hl identity_model_ok Hf) as (H1 & H2 & H3).
  split; [ exact H1 | ]. split; [ exact H2 | ].
  apply H3. vm_compute. split; [ discriminate | reflexivity ].
Defined.

(** ** Cross-fade gains *)

(** C2 (evaluated at a failing input): sample rate 10, segment 1, overlap 1/4
    is a valid configuration in which the overlap is 2.5 frames.  On 30
    frames the windows are [0, 12), [9, 24) and [21, 36); frame 10 lies in
    the first two only, and the two fade gains there are 1 and 1: their sum
    is 2, and so is the output of the identity adapter on the constant
    signal 1. *)
Theorem fractional_overlap_gain :
  valid_config 10 1 (1 # 4)
  /\ r_status (separate_sources 10 10 identity_model (const3 1 1 30 1) 1 (1 # 4))
     = Returned
  /\ r_calls (separate_sources 10 10 identity_model (const3 1 1 30 1) 1 (1 # 4))
     = [mkWindow 0 12 0 2; mkWindow 9 24 2 2; mkWindow 21 36 2 0]
  /\ in_windowb (mkWindow 0 12 0 2) 10 = true
  /\ in_windowb (mkWindow 9 24 2 2) 10 = true
  /\ in_windowb (mkWindow 21 36 2 0) 10 = false
  /\ (window_gain 30 (mkWindow 0 12 0 2) 10
      + window_gain 30 (mkWindow 9 24 2 2) 10 == 2)%Q
  /\ (t4_data (r_final (separate_sources 10 10 identity_model (const3 1 1 30 1)
                          1 (1 # 4))) 0 0 0 10 == 2)%Q.
Proof.
  split; [ config_tac | ].
  repeat split; vm_compute; reflexivity.
Qed.

(** ** Round trip through the identity adapter *)

(** C3 (evaluated at a failing input): sample rate 8, segment 1, overlap 1/4
    is a valid configuration with chunk length 10 and fade length 2.  On the
    constant signal 1 of 10 frames the only window, [0, 10), is faded out
    over its last two frames although it ends the signal: the output at the
    last frame is 0 where the input is 1. *)
Theorem single_window_tail_faded :
  valid_config 8 1 (1 # 4)
  /\ r_status (separate_sources 8 10 identity_model (const3 1 1 10 1) 1 (1 # 4))
     = Returned
  /\ r_calls (separate_sources 8 10 identity_model (const3 1 1 10 1) 1 (1 # 4))
     = [mkWindow 0 10 0 2]
  /\ (t3_data (const3 1 1 10 1) 0 0 9 == 1)%Q
  /\ (t4_data (r_final (separate_sources 8 10 identity_model (const3 1 1 10 1)
                          1 (1 # 4))) 0 0 0 8 == 1)%Q
  /\ (t4_data (r_final (separate_sources 8 10 identity_model (const3 1 1 10 1)
                          1 (1 # 4))) 0 0 0 9 == 0)%Q.
Proof.
  split; [ config_tac | ].
  repeat split; vm_compute; reflexivity.
Qed.

(** ** Gains of the linear fade *)

Lemma clamp01_id (x : Q) : (0 <= x)%Q -> (x <= 1)%Q -> (clamp01 x == x)%Q.
Proof.
  intros H0 H1. unfold clamp01.
  assert (E : (Qmax x 0 == x)%Q) by (apply Q.max_l; exact H0).
  rewrite (Q.min_l (Qmax x 0) 1); [exact E | ].
  rewrite E. exact H1.
Qed.

Lemma linspace01_range (steps i : Z) :
  0 <= i < steps -> (0 <= linspace01 steps i)%Q /\ (linspace01 steps i <= 1)%Q.
Proof.
  intros Hi. unfold linspace01.
  destruct (Z.eqb_spec steps 1) as [E | NE]; [ split; lra | ].
  assert (Hpos : (0 < inject_Z (steps - 1))%Q).
  { apply (inject_Z_lt 0). lia. }
  split.
  - apply Qle_shift_div_l; [exact Hpos | ].
    setoid_replace (0 * inject_Z (steps - 1))%Q with (inject_Z 0) by ring.
    apply inject_Z_le. lia.
  - apply Qle_shift_div_r; [exact Hpos | ].
    setoid_replace (1 * inject_Z (steps - 1))%Q with (inject_Z (steps - 1)) by ring.
    apply inject_Z_le. lia.
Qed.

(** The gain of a fade at a frame of the waveform, without the clamp. *)
Lemma fade_gain_cases (f : Fade) (n i : Z) :
  0 <= i < n ->
  (fade_gain f n i ==
   (if i <? fade_in_len f then linspace01 (fade_in_len f) i else 1)
   * (if i <? n - fade_out_len f then 1
      else - linspace01 (fade_out_len f) (i - (n - fade_out_len f)) + 1))%Q.
Proof.
  intros Hi. unfold fade_gain, fade_in_gain, fade_out_gain.
  assert (E1 : (clamp01 (if i <? fade_in_len f
                         then linspace01 (fade_in_len f) i else 1)
                == (if i <? fade_in_len f
                    then linspace01 (fade_in_len f) i else 1))%Q).
  { destruct (Z.ltb_spec i (fade_in_len f)).
    - apply clamp01_id; apply linspace01_range; lia.
    - apply clamp01_id; lra. }
  assert (E2 : (clamp01 (if i <? n - fade_out_len f then 1
                         else - linspace01 (fade_out_len f)
                                  (i - (n - fade_out_len f)) + 1)
                == (if i <? n - fade_out_len f then 1
                    else - linspace01 (fade_out_len f)
                             (i - (n - fade_out_len f)) + 1))%Q).
  { destruct (Z.ltb_spec i (n - fade_out_len f)).
    - apply clamp01_id; lra.
    - destruct (linspace01_range (fade_out_len f) (i - (n - fade_out_len f)))
        as [R0 R1]; [lia | ].
      apply clamp01_id; lra. }
  rewrite E1, E2. reflexivity.
Qed.

Lemma bidx_nat_inside (d i : nat) : (i < d)%nat -> bidx_nat d i = i.
Proof.
  intros H. unfold bidx_nat. destruct (Nat.eqb_spec d 1); [lia | reflexivity].
Qed.

Lemma bidx_Z_inside (d i : Z) : 0 <= i < d -> bidx_Z d i = i.
Proof.
  intros H. unfold bidx_Z. destruct (Z.eqb_spec d 1); [lia | reflexivity].
Qed.

(** ** One iteration with the identity adapter *)

Lemma body_identity (L C : Z) (ov : Q) (B Ch : nat) (st st' : State) :
  body identity_model L C ov st = Ok st' ->
  shape_inv B 1 Ch L st ->
  0 <= st_start st -> st_start st < L -> st_start st <= st_end st ->
  (forall b c t, t3_data (st_mix st') b c t = t3_data (st_mix st) b c t)
  /\ forall b c t, (b < B)%nat -> (c < Ch)%nat ->
       (st_start st <= t < Z.min (st_end st) L ->
        t4_data (st_final st') b 0 c t
        = (t4_data (st_final st) b 0 c t
           + fade_gain (st_fade st) (Z.min (st_end st) L - st_start st)
                       (t - st_start st)
             * t3_data (st_mix st) b c t)%Q)
       /\ (~ (st_start st <= t < Z.min (st_end st) L) ->
           t4_data (st_final st') b 0 c t = t4_data (st_final st) b 0 c t).
Proof.
  intros Hb (Hb3 & Hc3 & Hl3 & Hb4 & Hs4 & Hc4 & Hl4) Hs0 HsL Hse.
  destruct (slice_len_clipped L (st_start st) (st_end st)) as [Hlo Hlen];
    [lia | lia | lia | ].
  apply body_advance in Hb.
  destruct Hb as (chunk' & out & faded & final' & Hf & Hfd & Ha & ->).
  simpl in Hf. injection Hf as <- <-.
  unfold fade_forward in Hfd.
  destruct (fade_sizes_ok _ _); [ | discriminate ]. injection Hfd as <-.
  unfold iadd_slice in Ha.
  destruct (_ && _); [ | discriminate ]. injection Ha as <-.
  unfold advance.
  cbn [st_mix st_final t4_data t4_len t4_batch t4_src t4_chan
       t3_data t3_len t3_batch t3_chan unsqueeze slice3 write_view3].
  rewrite Hl3, Hl4, Hlo, Hlen, Hb3, Hc3. split.
  - intros b c t.
    destruct ((st_start st <=? t) && (t <? st_start st + (Z.min (st_end st) L - st_start st)));
      [ | reflexivity ].
    f_equal. lia.
  - intros b c t Hb Hc. split.
    + intros Ht.
      destruct (Z.leb_spec (st_start st) t) as [H1 | H1]; [ | lia ].
      destruct (Z.ltb_spec t (st_start st + (Z.min (st_end st) L - st_start st)))
        as [H2 | H2]; [ | lia ].
      cbn [andb].
      rewrite (bidx_nat_inside B b Hb), (bidx_nat_inside Ch c Hc).
      rewrite bidx_Z_inside by lia.
      replace (st_start st + (t - st_start st)) with t by lia.
      reflexivity.
    + intros Ht.
      destruct (Z.leb_spec (st_start st) t) as [H1 | H1]; [ | reflexivity ].
      destruct (Z.ltb_spec t (st_start st + (Z.min (st_end st) L - st_start st)))
        as [H2 | H2]; [ lia | reflexivity ].
Qed.

(** ** The accumulator across the loop *)

Section RoundTrip.

Variable mix : Tensor3.
Variable C : Z.
Variable ov : Q.

Local Abbreviation L := (t3_len mix).
Local Abbreviation a := (py_int (inject_Z C - ov)%Q).
Local Abbreviation V := (py_int ov).
Local Abbreviation loop' := (loop identity_model L C ov).
Local Abbreviation body' := (body identity_model L C ov).
Local Abbreviation guard' := (loop_guard L ov).

Hypothesis ov_integral : (ov == inject_Z V)%Q.
Hypothesis ov_nonneg : (0 <= ov)%Q.
Hypothesis advance_pos : 1 <= a.
Hypothesis longer : C < L.

Lemma advance_integral : a = C - V.
Proof.
  rewrite <- (py_int_inject (C - V)). apply py_int_comp.
  rewrite inject_Z_minus, <- ov_integral. reflexivity.
Qed.

Lemma fade_len_nonneg : 0 <= V.
Proof. apply (py_int_nonneg ov ov_nonneg). Qed.

Lemma acc_inv_step (k : nat) (st st' : State) :
  geom_inv L C a V k st ->
  shape_inv (t3_batch mix) 1 (t3_chan mix) L st ->
  acc_inv mix L C V k st ->
  guard' st = true -> body' st = Ok st' ->
  acc_inv mix L C V (S k) st'.
Proof.
  intros Hinv Hshape [Hmix Hacc] Hg Hb.
  pose proof advance_integral as Ea. pose proof fade_len_nonneg as HV0.
  pose proof advance_pos as Ha.
  unfold geom_inv, window_of, nth_window in Hinv. injection Hinv as Hs He Hi Ho.
  apply guard_true_iff in Hg.
  assert (HgZ : st_start st + V < L).
  { apply inject_Z_lt. rewrite inject_Z_plus. lra. }
  assert (Hs0 : 0 <= st_start st).
  { rewrite Hs. destruct k; cbn [start_at]; nia. }
  assert (Hse : st_start st <= st_end st).
  { rewrite Hs, He. unfold end_at. destruct k; cbn [start_at];
      [ lia | rewrite Nat2Z.inj_succ; nia ]. }
  destruct (body_identity L C ov _ _ st st' Hb Hshape Hs0 ltac:(lia) Hse)
    as [Hmix' Hfin].
  split.
  { intros b c t. rewrite Hmix'. apply Hmix. }
  intros b c t Hb' Hc' Ht.
  destruct (Hfin b c t Hb' Hc') as [Hin Hout].
  specialize (Hacc b c t Hb' Hc' Ht).
  unfold expected_acc. cbn zeta.
  destruct (Z.lt_ge_cases t (st_start st)) as [Hlow | Hlow].
  - (* before the window *)
    rewrite Hout by lia. rewrite Hacc.
    destruct (Z.ltb_spec t (Z.of_nat (S k) * C - V)) as [H1 | H1].
    + destruct k as [ | k]; [ cbn [start_at] in Hs; lia | ].
      unfold expected_acc. cbn zeta. cbn [start_at] in Hs.
      destruct (Z.ltb_spec t (Z.of_nat (S k) * C - V)) as [H2 | H2];
        [ reflexivity | rewrite Nat2Z.inj_succ in *; lia ].
    + exfalso. rewrite Hs in Hlow.
      destruct k as [ | k]; cbn [start_at] in Hlow;
        rewrite ?Nat2Z.inj_succ in *; nia.
  - destruct (Z.lt_ge_cases t (Z.min (st_end st) L)) as [Hup | Hup].
    + (* inside the window *)
      rewrite Hin by lia. rewrite Hmix.
      rewrite fade_gain_cases by lia. rewrite Hi, Ho, Hacc.
      destruct k as [ | k].
      * (* first window *)
        cbn [start_at fade_in_at fade_out_at expected_acc] in *.
        unfold end_at in He. change (Z.of_nat 0) with 0 in He.
        change (Z.of_nat 1) with 1.
        assert (EC : st_end st = C) by lia.
        rewrite EC, Hs in *. rewrite Z.min_l in * by lia.
        replace (1 * C) with C by lia.
        replace (t - 0) with t by lia. replace (C - 0) with C by lia.
        destruct (Z.ltb_spec t 0) as [H0 | H0]; [lia | ].
        destruct (Z.ltb_spec t (C - V)) as [H1 | H1]; [ ring | ].
        destruct (Z.ltb_spec t C) as [H2 | H2]; [ | lia ].
        destruct (Z.ltb_spec C L) as [H3 | H3]; [ ring | lia ].
      * (* a later window *)
        cbn [start_at fade_in_at fade_out_at expected_acc] in *. cbn zeta.
        unfold end_at in *. rewrite !Nat2Z.inj_succ in *.
        set (K := Z.of_nat k) in *.
        assert (HK : 0 <= K) by (unfold K; lia).
        assert (Es : st_start st = Z.succ K * C - V) by lia.
        rewrite He, Es in *.
        destruct (Z.geb_spec ((Z.succ (Z.succ K) + 1) * C) L) as [HeL | HeL];
          destruct (Z.geb_spec ((Z.succ K + 1) * C) L) as [HeL' | HeL'].
        all: try (rewrite Z.min_r in * by nia).
        all: try (rewrite Z.min_l in * by nia).
        all: repeat match goal with
               | |- context [ (?x <? ?y) ] =>
                   destruct (Z.ltb_spec x y); try (exfalso; nia)
               end.
        all: try (replace (t - (Z.succ K * C - V) - ((Z.succ K + 1) * C - (Z.succ K * C - V) - V))
                    with (t - (Z.succ (Z.succ K) * C - V)) by lia).
        all: try ring.
    + (* after the window *)
      rewrite Hout by lia. rewrite Hacc.
      assert (HeL : st_end st <= t) by lia.
      rewrite He in HeL. unfold end_at in HeL.
      destruct (Z.ltb_spec t (Z.of_nat (S k) * C - V)) as [H1 | H1];
        [ rewrite Nat2Z.inj_succ in *; nia | ].
      destruct (Z.ltb_spec t (Z.of_nat (S k) * C)) as [H2 | H2];
        [ rewrite Nat2Z.inj_succ in *; nia | ].
      destruct k as [ | k]; [ reflexivity | ].
      unfold expected_acc. cbn zeta.
      destruct (Z.ltb_spec t (Z.of_nat (S k) * C - V)) as [H3 | H3];
        [ rewrite !Nat2Z.inj_succ in *; nia | ].
      destruct (Z.ltb_spec t (Z.of_nat (S k) * C)) as [H4 | H4];
        [ rewrite !Nat2Z.inj_succ in *; nia | reflexivity ].
Qed.

(** From iteration [k] on, with enough fuel, the loop returns and [final]
    holds the samples of [mix]. *)
Lemma loop_round_trip (fuel : nat) :
  forall (k : nat) (st : State),
    geom_inv L C a V k st ->
    shape_inv (t3_batch mix) 1 (t3_chan mix) L st ->
    acc_inv mix L C V k st ->
    (k = O -> guard' st = true) ->
    L <= Z.of_nat fuel + Z.of_nat k ->
    r_status (loop' fuel st) = Returned
    /\ forall b c t, (b < t3_batch mix)%nat -> (c < t3_chan mix)%nat ->
                     0 <= t < L ->
         (t4_data (st_final (r_state (loop' fuel st))) b 0 c t
          == t3_data mix b c t)%Q.
Proof.
  pose proof advance_integral as Ea. pose proof fade_len_nonneg as HV0.
  pose proof advance_pos as Ha.
  assert (Hexit : forall k st,
            geom_inv L C a V k st -> acc_inv mix L C V k st ->
            (k = O -> guard' st = true) -> guard' st = false ->
            forall b c t, (b < t3_batch mix)%nat -> (c < t3_chan mix)%nat ->
                          0 <= t < L ->
              (t4_data (st_final st) b 0 c t == t3_data mix b c t)%Q).
  { intros k st Hinv [_ Hacc] Hk0 Hg b c t Hb Hc Ht.
    destruct k as [ | k]; [ specialize (Hk0 eq_refl); congruence | ].
    apply guard_false_iff in Hg.
    unfold geom_inv, window_of, nth_window in Hinv. injection Hinv as Hs _ _ _.
    cbn [start_at] in Hs.
    assert (HL : L <= st_start st + V).
    { apply inject_Z_le. rewrite inject_Z_plus. lra. }
    rewrite (Hacc b c t Hb Hc Ht). unfold expected_acc. cbn zeta.
    rewrite Nat2Z.inj_succ.
    destruct (Z.ltb_spec t (Z.succ (Z.of_nat k) * C - V)); [reflexivity | ].
    destruct (Z.ltb_spec t (Z.succ (Z.of_nat k) * C)); [ | lia ].
    destruct (Z.ltb_spec (Z.succ (Z.of_nat k) * C) L); [ lia | reflexivity ]. }
  induction fuel as [ | fuel IH]; intros k st Hinv Hshape Hacc Hk0 Hfuel.
  - destruct (guard' st) eqn:Hg.
    + exfalso. apply guard_true_iff in Hg.
      unfold geom_inv, window_of, nth_window in Hinv. injection Hinv as Hs _ _ _.
      destruct (start_at_bounds C ov ov_nonneg advance_pos k) as (Hk1 & _ & _).
      assert (st_start st < L) by (apply inject_Z_lt; lra). lia.
    + rewrite loop_guard_false by exact Hg. split; [reflexivity | ].
      rewrite <- Hg in Hk0. apply (Hexit k st Hinv Hacc Hk0 Hg).
  - destruct (guard' st) eqn:Hg.
    + destruct (body_ok identity_model L C ov (t3_batch mix) (t3_chan mix)
                  identity_model_ok ov_nonneg advance_pos k st Hinv Hshape Hg)
        as (st' & Hb & Hshape').
      assert (Hinv' : geom_inv L C a V (S k) st').
      { apply (geom_inv_step identity_model L C ov k st); auto. lia. }
      assert (Hacc' : acc_inv mix L C V (S k) st').
      { apply (acc_inv_step k st); assumption. }
      assert (Hfuel' : L <= Z.of_nat fuel + Z.of_nat (S k)).
      { rewrite Nat2Z.inj_succ in *. lia. }
      assert (Hk0' : S k = O -> guard' st' = true) by discriminate.
      destruct (IH (S k) st' Hinv' Hshape' Hacc' Hk0' Hfuel') as [IHs IHc].
      simpl. rewrite Hg, Hb. simpl. split; [exact IHs | exact IHc].
    + rewrite loop_guard_false by exact Hg. split; [reflexivity | ].
      rewrite <- Hg in Hk0. apply (Hexit k st Hinv Hacc Hk0 Hg).
Qed.

End RoundTrip.

(** ** Unity gain when the overlap is a whole number of frames *)



(** ** A cursor that does not advance *)

(** When the first advance is 0 and the loop is entered, the cursor stays at
    0 and the loop condition never fails: no run returns. *)
Lemma stuck_cursor_never_returns (R : Z) (segment overlap : Q) (model : Model)
    (mix : Tensor3) (fuel : nat) :
  first_advance_of R segment overlap = 0 ->
  (overlap_frames_of R overlap < inject_Z (t3_len mix))%Q ->
  r_status (separate_sources R fuel model mix segment overlap) <> Returned.
Proof.
  intros Ha Hlong. unfold separate_sources.
  assert (H0 : st_start (init_state R model mix segment overlap) = 0)
    by reflexivity.
  revert H0. generalize (init_state R model mix segment overlap).
  induction fuel as [ | fuel IH]; intros st Hst.
  - simpl. assert (Hg : loop_guard (t3_len mix) (overlap_frames_of R overlap) st
                        = true).
    { apply guard_true_iff. rewrite Hst. change (inject_Z 0) with 0%Q. lra. }
    rewrite Hg. simpl. discriminate.
  - simpl. assert (Hg : loop_guard (t3_len mix) (overlap_frames_of R overlap) st
                        = true).
    { apply guard_true_iff. rewrite Hst. change (inject_Z 0) with 0%Q. lra. }
    rewrite Hg.
    destruct (body _ _ _ _ st) as [st' | e] eqn:Hb; simpl; [ | discriminate ].
    apply IH. apply body_advance in Hb.
    destruct Hb as (chunk' & out & faded & final' & _ & _ & _ & ->).
    unfold advance. cbn [st_start]. rewrite Hst, Z.eqb_refl.
    unfold first_advance_of in Ha. rewrite Ha. reflexivity.
Qed.

(** Sample rate 2, segment 1/2, overlap 1/2 is such a configuration. *)
Example stuck_cursor_config :
  valid_config 2 (1 # 2) (1 # 2)
  /\ first_advance_of 2 (1 # 2) (1 # 2) = 0
  /\ r_status (separate_sources 2 10 identity_model (const3 1 1 5 1)
                 (1 # 2) (1 # 2)) = OutOfFuel.
Proof.
  split; [ config_tac | ]. split; vm_compute; reflexivity.
Qed.

(** ** The concrete scenario of the specification *)

(** 100 frames at sample rate 10 with segment 5 and overlap 1/10: chunk
    length 55, fade length 1, and exactly two windows, [0, 55) and
    [54, 110), the second clipped to the 100 frames of the signal; the
    identity adapter is reproduced at the seam. *)
Example scenario_two_windows :
  chunk_len_of 10 5 (1 # 10) = 55
  /\ fade_len_of 10 (1 # 10) = 1
  /\ r_calls (separate_sources 10 100 identity_model (const3 1 2 100 1)
                5 (1 # 10))
     = [mkWindow 0 55 0 1; mkWindow 54 110 1 0]
  /\ r_status (separate_sources 10 100 identity_model (const3 1 2 100 1)
                 5 (1 # 10)) = Returned
  /\ slice_len 100 54 110 = 46
  /\ (t4_data (r_final (separate_sources 10 100 identity_model
                          (const3 1 2 100 1) 5 (1 # 10))) 0 0 1 54 == 1)%Q.
Proof. repeat split; vm_compute; reflexivity. Qed.

(** * Further properties of the window loop *)



Lemma stuck_cursor_never_returns_witness :
  r_status (separate_sources 2 10 identity_model (const3 1 1 5 1)
              (1 # 2) (1 # 2)) <> Returned.
Proof.
  apply (stuck_cursor_never_returns 2 (1 # 2) (1 # 2) identity_model
           (const3 1 1 5 1) 10).
  - vm_compute. reflexivity.
  - vm_compute. reflexivity.
Defined.

(** Consecutive windows share exactly [C - first advance] frames of index
    range, windows that are not consecutive share none, and the windows
    start at strictly increasing frames: no frame lies in more than two
    windows. *)
Theorem windows_overlap_structure (R : Z) (segment overlap : Q) (model : Model)
    (mix : Tensor3) (fuel : nat) :
  valid_config R segment overlap ->
  1 <= first_advance_of R segment overlap ->
  forall j k wj wk,
    nth_error (r_calls (separate_sources R fuel model mix segment overlap)) j
    = Some wj ->
    nth_error (r_calls (separate_sources R fuel model mix segment overlap)) k
    = Some wk ->
    (j < k)%nat ->
    w_start wj < w_start wk
    /\ (k = S j ->
        w_end wj - w_start wk
        = chunk_len_of R segment overlap - first_advance_of R segment overlap)
    /\ ((S j < k)%nat -> forall t, in_window wj t -> ~ in_window wk t).
Proof.
  intros Hv Ha j k wj wk Hj Hk Hjk.
  pose proof (valid_chunk_len_nonneg _ _ _ Hv) as HC.
  destruct (first_advance_room _ _ _ Ha) as [Hroom _].
  pose proof (valid_overlap_frames_nonneg _ _ _ Hv) as Hov.
  set (C := chunk_len_of R segment overlap) in *.
  set (a := first_advance_of R segment overlap) in *.
  set (ov := overlap_frames_of R overlap) in *.
  set (V := fade_len_of R overlap) in *.
  set (L := t3_len mix) in *.
  assert (HaC : a <= C).
  { apply inject_Z_le. lra. }
  assert (Hstep : forall i st st', geom_inv L C a V i st ->
            loop_guard L ov st = true -> body model L C ov st = Ok st' ->
            geom_inv L C a V (S i) st').
  { intros i st st'. apply geom_inv_step; assumption. }
  unfold separate_sources in Hj, Hk. fold C ov L in Hj, Hk.
  pose proof (init_geom_inv R model mix segment overlap) as H0.
  fold C a V L in H0.
  destruct (loop_calls_inv model L C ov _ Hstep fuel 0%nat _ H0 j wj Hj)
    as (sj & Hinvj & _ & ->).
  destruct (loop_calls_inv model L C ov _ Hstep fuel 0%nat _ H0 k wk Hk)
    as (sk & Hinvk & _ & ->).
  change (0 + j)%nat with j in Hinvj. change (0 + k)%nat with k in Hinvk.
  unfold geom_inv in Hinvj, Hinvk. rewrite Hinvj, Hinvk.
  unfold in_window, nth_window, end_at. cbn [w_start w_end].
  destruct k as [ | k]; [ lia | ]. cbn [start_at].
  assert (Hjk' : Z.of_nat j <= Z.of_nat k) by lia.
  assert (Hsj : start_at C a j <= Z.of_nat j * C
                /\ (j <> O -> start_at C a j = a + (Z.of_nat j - 1) * C)
                /\ (j = O -> start_at C a j = 0)).
  { destruct j as [ | j]; cbn [start_at].
    - repeat split; intros; first [ lia | congruence ].
    - rewrite Nat2Z.inj_succ. repeat split; intros; first [ nia | congruence ]. }
  destruct Hsj as (Hs1 & Hs2 & Hs3).
  split; [ | split ].
  - destruct j as [ | j]; [ rewrite Hs3 by reflexivity; nia | ].
    rewrite Hs2 by discriminate. nia.
  - intros E. injection E as ->. lia.
  - intros Hgap t Ht. assert (Z.of_nat j + 1 <= Z.of_nat k) by lia. nia.
Qed.

Lemma windows_overlap_structure_witness :
  w_start (mkWindow 0 10 0 2) < w_start (mkWindow 8 20 2 2)
  /\ w_end (mkWindow 0 10 0 2) - w_start (mkWindow 8 20 2 2)
     = chunk_len_of 8 1 (1 # 4) - first_advance_of 8 1 (1 # 4)
  /\ ~ in_window (mkWindow 18 30 2 0) 9.
Proof.
  assert (Hv : valid_config 8 1 (1 # 4)) by config_tac.
  assert (Ha : 1 <= first_advance_of 8 1 (1 # 4)) by (vm_compute; discriminate).
  assert (H0 : nth_error (r_calls (separate_sources 8 10 identity_model
                                     (const3 1 1 30 1) 1 (1 # 4))) 0
               = Some (mkWindow 0 10 0 2)) by (vm_compute; reflexivity).
  assert (H1 : nth_error (r_calls (separate_sources 8 10 identity_model
                                     (const3 1 1 30 1) 1 (1 # 4))) 1
               = Some (mkWindow 8 20 2 2)) by (vm_compute; reflexivity).
  assert (H2 : nth_error (r_calls (separate_sources 8 10 identity_model
                                     (const3 1 1 30 1) 1 (1 # 4))) 2
               = Some (mkWindow 18 30 2 0)) by (vm_compute; reflexivity).
  destruct (windows_overlap_structure 8 1 (1 # 4) identity_model
              (const3 1 1 30 1) 10 Hv Ha 0%nat 1%nat _ _ H0 H1 (le_n 1))
    as (A1 & A2 & _).
  destruct (windows_overlap_structure 8 1 (1 # 4) identity_model
              (const3 1 1 30 1) 10 Hv Ha 0%nat 2%nat _ _ H0 H2
              (le_S _ _ (le_n 1))) as (_ & _ & A3).
  split; [ exact A1 | ]. split; [ apply A2; reflexivity | ].
  apply A3; [ apply le_n | ].
  vm_compute. split; [ discriminate | reflexivity ].
Defined.

(** Every chunk handed to the model is non-empty and bounded: it has more
    frames than the overlap [overlap * sample_rate], hence room for both
    fades, and at most [C + (C - first advance)] frames. *)
Theorem chunk_length_bounds (R : Z) (segment overlap : Q) (model : Model)
    (mix : Tensor3) (fuel : nat) :
  valid_config R segment overlap ->
  1 <= first_advance_of R segment overlap ->
  forall k w,
    nth_error (r_calls (separate_sources R fuel model mix segment overlap)) k
    = Some w ->
    1 <= slice_len (t3_len mix) (w_start w) (w_end w)
    /\ (overlap_frames_of R overlap
        < inject_Z (slice_len (t3_len mix) (w_start w) (w_end w)))%Q
    /\ slice_len (t3_len mix) (w_start w) (w_end w)
       <= chunk_len_of R segment overlap
          + (chunk_len_of R segment overlap - first_advance_of R segment overlap)
    /\ 0 <= w_fade_in w <= slice_len (t3_len mix) (w_start w) (w_end w)
    /\ 0 <= w_fade_out w <= slice_len (t3_len mix) (w_start w) (w_end w).
Proof.
  intros Hv Ha k w Hk.
  pose proof (valid_chunk_len_nonneg _ _ _ Hv) as HC.
  destruct (first_advance_room _ _ _ Ha) as [Hroom _].
  pose proof (valid_overlap_frames_nonneg _ _ _ Hv) as Hov.
  destruct (valid_fade_len _ _ _ Hv) as [HV0 HV1].
  set (C := chunk_len_of R segment overlap) in *.
  set (a := first_advance_of R segment overlap) in *.
  set (ov := overlap_frames_of R overlap) in *.
  set (V := fade_len_of R overlap) in *.
  set (L := t3_len mix) in *.
  assert (HaC : a <= C) by (apply inject_Z_le; lra).
  assert (Hstep : forall i st st', geom_inv L C a V i st ->
            loop_guard L ov st = true -> body model L C ov st = Ok st' ->
            geom_inv L C a V (S i) st').
  { intros i st st'. apply geom_inv_step; assumption. }
  unfold separate_sources in Hk. fold C ov L in Hk.
  pose proof (init_geom_inv R model mix segment overlap) as H0.
  fold C a V L in H0.
  destruct (loop_calls_inv model L C ov _ Hstep fuel 0%nat _ H0 k w Hk)
    as (st & Hinv & Hg & ->).
  change (0 + k)%nat with k in Hinv.
  apply guard_true_iff in Hg.
  assert (Hs : st_start st = start_at C a k).
  { change (st_start st) with (w_start (window_of st)). now rewrite Hinv. }
  unfold geom_inv in Hinv. rewrite Hinv. unfold nth_window.
  cbn [w_start w_end w_fade_in w_fade_out]. rewrite Hs in Hg.
  assert (Hb : 0 <= start_at C a k /\ start_at C a k + C <= end_at C k
               /\ end_at C k - start_at C a k <= C + (C - a)).
  { unfold end_at. destruct k as [ | k]; cbn [start_at].
    - change (Z.of_nat 0) with 0. lia.
    - rewrite Nat2Z.inj_succ. nia. }
  destruct Hb as (Hb0 & Hb1 & Hb2).
  assert (HsL : start_at C a k < L) by (apply inject_Z_lt; lra).
  destruct (slice_len_clipped L (start_at C a k) (end_at C k)) as [_ E];
    [ lia | lia | lia | ].
  rewrite E.
  assert (Hn : (ov < inject_Z (Z.min (end_at C k) L - start_at C a k))%Q).
  { rewrite inject_Z_minus.
    destruct (Z.le_gt_cases (end_at C k) L) as [HeL | HeL].
    - rewrite Z.min_l by lia.
      assert (H1 : (inject_Z (start_at C a k + C) <= inject_Z (end_at C k))%Q)
        by (apply inject_Z_le; exact Hb1).
      assert (H2 : (1 <= inject_Z a)%Q) by (apply (inject_Z_le 1); exact Ha).
      rewrite inject_Z_plus in H1. lra.
    - rewrite Z.min_r by lia. lra. }
  assert (Hn1 : V < Z.min (end_at C k) L - start_at C a k).
  { apply inject_Z_lt. lra. }
  assert (Hfi : 0 <= fade_in_at V k <= V) by (destruct k; simpl; lia).
  assert (Hfo : 0 <= fade_out_at L C V k <= V).
  { destruct k; cbn [fade_out_at]; [ lia | ].
    destruct (end_at C (S k) >=? L); lia. }
  repeat split; try lia. exact Hn.
Qed.

Lemma chunk_length_bounds_witness :
  1 <= slice_len 30 18 30
  /\ (overlap_frames_of 8 (1 # 4) < inject_Z (slice_len 30 18 30))%Q
  /\ slice_len 30 18 30
     <= chunk_len_of 8 1 (1 # 4)
        + (chunk_len_of 8 1 (1 # 4) - first_advance_of 8 1 (1 # 4))
  /\ 0 <= 2 <= slice_len 30 18 30
  /\ 0 <= 0 <= slice_len 30 18 30.
Proof.
  assert (Hv : valid_config 8 1 (1 # 4)) by config_tac.
  assert (Ha : 1 <= first_advance_of 8 1 (1 # 4)) by (vm_compute; discriminate).
  assert (H2 : nth_error (r_calls (separate_sources 8 10 identity_model
                                     (const3 1 1 30 1) 1 (1 # 4))) 2
               = Some (mkWindow 18 30 2 0)) by (vm_compute; reflexivity).
  exact (chunk_length_bounds 8 1 (1 # 4) identity_model (const3 1 1 30 1) 10
           Hv Ha 2%nat (mkWindow 18 30 2 0) H2).
Defined.

(** ** The number of calls of the model *)

Lemma ceil_div_bounds (L C : Z) :
  0 < C -> C * ((L + C - 1) / C - 1) < L /\ L <= C * ((L + C - 1) / C).
Proof.
  intros HC.
  pose proof (Z.mul_div_le (L + C - 1) C HC) as H1.
  pose proof (Z.mul_succ_div_gt (L + C - 1) C HC) as H2.
  lia.
Qed.

Lemma loop_call_count (model : Model) (L C : Z) (ov : Q) (b c : nat) :
  adapter_ok model -> (0 <= ov)%Q -> 1 <= py_int (inject_Z C - ov)%Q ->
  (ov == inject_Z (py_int ov))%Q ->
  forall (fuel k : nat) (st : State),
    geom_inv L C (py_int (inject_Z C - ov)%Q) (py_int ov) k st ->
    shape_inv b (List.length (sources model)) c L st ->
    (k = O -> loop_guard L ov st = true) ->
    L <= Z.of_nat fuel + Z.of_nat k ->
    Z.of_nat (List.length (r_calls (loop model L C ov fuel st)))
    = Z.max 0 ((L + C - 1) / C - Z.of_nat k).
Proof.
  intros Hok Hov Ha Hint.
  assert (Ea : py_int (inject_Z C - ov)%Q = C - py_int ov).
  { rewrite <- (py_int_inject (C - py_int ov)). apply py_int_comp.
    rewrite inject_Z_minus, <- Hint. reflexivity. }
  destruct (py_int_nonneg _ Hov) as (HV0 & _ & _).
  set (V := py_int ov) in *. set (a := py_int (inject_Z C - ov)%Q) in *.
  assert (HC : 0 < C) by lia.
  destruct (ceil_div_bounds L C HC) as [Hn1 Hn2].
  set (n := (L + C - 1) / C) in *.
  assert (Hgk : forall k st, geom_inv L C a V (S k) st ->
            (loop_guard L ov st = true <-> Z.of_nat (S k) < n)).
  { intros k st Hinv.
    assert (Hs : st_start st = start_at C a (S k)).
    { change (st_start st) with (w_start (window_of st)). now rewrite Hinv. }
    cbn [start_at] in Hs.
    assert (Equiv : loop_guard L ov st = true <-> Z.of_nat (S k) * C < L).
    { rewrite guard_true_iff, Hs. rewrite Nat2Z.inj_succ. split; intros H.
      - assert (H' : (inject_Z (a + Z.of_nat k * C + V) < inject_Z L)%Q).
        { rewrite inject_Z_plus. lra. }
        apply -> inject_Z_lt in H'. lia.
      - assert (H' : (inject_Z (a + Z.of_nat k * C + V) < inject_Z L)%Q).
        { apply inject_Z_lt. lia. }
        rewrite inject_Z_plus in H'. lra. }
    rewrite Equiv. split; intros H; nia. }
  induction fuel as [ | fuel IH]; intros k st Hinv Hshape Hk0 Hfuel.
  - destruct (loop_guard L ov st) eqn:Hg.
    + exfalso. apply guard_true_iff in Hg.
      assert (Hs : st_start st = start_at C a k).
      { change (st_start st) with (w_start (window_of st)). now rewrite Hinv. }
      destruct (start_at_bounds C ov Hov Ha k) as (Hk1 & _ & _).
      fold a in Hk1.
      assert (st_start st < L) by (apply inject_Z_lt; lra). lia.
    + rewrite loop_guard_false by exact Hg. simpl List.length.
      destruct k as [ | k]; [ specialize (Hk0 eq_refl); congruence | ].
      assert (Hnk : ~ Z.of_nat (S k) < n).
      { intros H. apply (Hgk k st Hinv) in H. congruence. }
      change (Z.of_nat 0) with 0. lia.
  - destruct (loop_guard L ov st) eqn:Hg.
    + destruct (body_ok model L C ov b c Hok Hov Ha k st Hinv Hshape Hg)
        as (st' & Hb & Hshape').
      assert (Hinv' : geom_inv L C a V (S k) st').
      { apply (geom_inv_step model L C ov k st); auto. lia. }
      assert (Hfuel' : L <= Z.of_nat fuel + Z.of_nat (S k)).
      { rewrite Nat2Z.inj_succ in *. lia. }
      assert (Hk0' : S k = O -> loop_guard L ov st' = true) by discriminate.
      pose proof (IH (S k) st' Hinv' Hshape' Hk0' Hfuel') as IHc.
      simpl. rewrite Hg, Hb. cbn [r_calls List.length].
      rewrite Nat2Z.inj_succ, IHc.
      assert (Hkn : Z.of_nat k < n).
      { destruct k as [ | k].
        - apply guard_true_iff in Hg.
          assert (Hs : st_start st = 0).
          { change (st_start st) with (w_start (window_of st)). now rewrite Hinv. }
          rewrite Hs in Hg. change (inject_Z 0) with 0%Q in Hg.
          assert (0 < L) by (apply inject_Z_lt; change (inject_Z 0) with 0%Q; lra).
          change (Z.of_nat 0) with 0. nia.
        - now apply (Hgk k st Hinv). }
      rewrite Nat2Z.inj_succ. lia.
    + rewrite loop_guard_false by exact Hg. simpl List.length.
      destruct k as [ | k]; [ specialize (Hk0 eq_refl); congruence | ].
      assert (Hnk : ~ Z.of_nat (S k) < n).
      { intros H. apply (Hgk k st Hinv) in H. congruence. }
      change (Z.of_nat 0) with 0. lia.
Qed.

(** With an overlap of a whole number of frames, a first advance of at least
    1, a signal longer than the overlap and a model that does not raise and
    shapes its output as its input, the model is called exactly
    [ceil (L / C)] times. *)
Theorem call_count (R : Z) (segment overlap : Q) (model : Model)
    (mix : Tensor3) (fuel : nat) :
  valid_config R segment overlap ->
  (overlap_frames_of R overlap == inject_Z (fade_len_of R overlap))%Q ->
  1 <= first_advance_of R segment overlap ->
  (overlap_frames_of R overlap < inject_Z (t3_len mix))%Q ->
  adapter_ok model ->
  t3_len mix <= Z.of_nat fuel ->
  Z.of_nat (List.length
              (r_calls (separate_sources R fuel model mix segment overlap)))
  = (t3_len mix + chunk_len_of R segment overlap - 1)
    / chunk_len_of R segment overlap.
Proof.
  intros Hv Hint Ha Hlong Hok Hfuel.
  pose proof (valid_overlap_frames_nonneg _ _ _ Hv) as Hov.
  assert (Hg : loop_guard (t3_len mix) (overlap_frames_of R overlap)
                 (init_state R model mix segment overlap) = true).
  { now apply (init_guard R model mix segment overlap). }
  unfold separate_sources.
  rewrite (loop_call_count model (t3_len mix) (chunk_len_of R segment overlap)
             (overlap_frames_of R overlap) (t3_batch mix) (t3_chan mix)
             Hok Hov Ha Hint fuel 0%nat (init_state R model mix segment overlap)
             (init_geom_inv R model mix segment overlap)
             (init_shape_inv R model mix segment overlap) (fun _ => Hg)).
  - change (Z.of_nat 0) with 0.
    assert (HL : 0 < t3_len mix).
    { apply inject_Z_lt. change (inject_Z 0) with 0%Q. lra. }
    destruct (first_advance_room _ _ _ Ha) as [Hroom _].
    assert (HC : 0 < chunk_len_of R segment overlap).
    { apply inject_Z_lt. change (inject_Z 0) with 0%Q.
      assert (H1 : (1 <= inject_Z (first_advance_of R segment overlap))%Q)
        by (apply (inject_Z_le 1); exact Ha).
      lra. }
    destruct (ceil_div_bounds (t3_len mix) _ HC) as [_ H2].
    rewrite Z.max_r; [ lia | nia ].
  - change (Z.of_nat 0) with 0. lia.
Qed.

Lemma call_count_witness :
  Z.of_nat (List.length
              (r_calls (separate_sources 8 31 identity_model (const3 1 1 31 1)
                          1 (1 # 4))))
  = (t3_len (const3 1 1 31 1) + chunk_len_of 8 1 (1 # 4) - 1)
    / chunk_len_of 8 1 (1 # 4).
Proof.
  apply (call_count 8 1 (1 # 4) identity_model (const3 1 1 31 1) 31).
  - config_tac.
  - vm_compute. reflexivity.
  - vm_compute. discriminate.
  - vm_compute. reflexivity.
  - exact identity_model_ok.
  - vm_compute. discriminate.
Defined.

(** ** A fade longer than the chunk *)

(** When the loop is entered and the fade length is negative or exceeds the
    frames of the first chunk, a model that returns normally is called once
    and the fade then raises the run-time error of torch: the run stops
    there, with an accumulator that is still all zeros. *)
Theorem fade_longer_than_chunk_raises (R : Z) (segment overlap : Q)
    (model : Model) (mix : Tensor3) (fuel : nat) :
  adapter_ok model ->
  (overlap_frames_of R overlap < inject_Z (t3_len mix))%Q ->
  fade_len_of R overlap < 0
  \/ slice_len (t3_len mix) 0 (chunk_len_of R segment overlap)
     < fade_len_of R overlap ->
  r_status (separate_sources R (S fuel) model mix segment overlap)
  = Raised RuntimeError
  /\ r_calls (separate_sources R (S fuel) model mix segment overlap)
     = [mkWindow 0 (chunk_len_of R segment overlap) 0 (fade_len_of R overlap)]
  /\ r_final (separate_sources R (S fuel) model mix segment overlap)
     = zeros4 (t3_batch mix) (List.length (sources model)) (t3_chan mix)
              (t3_len mix).
Proof.
  intros Hok Hlong Hbad.
  assert (Hg : loop_guard (t3_len mix) (overlap_frames_of R overlap)
                 (init_state R model mix segment overlap) = true).
  { now apply (init_guard R model mix segment overlap). }
  assert (Hb : body model (t3_len mix) (chunk_len_of R segment overlap)
                 (overlap_frames_of R overlap)
                 (init_state R model mix segment overlap) = Raise RuntimeError).
  { unfold body, init_state. cbn [st_mix st_start st_end st_fade st_final].
    destruct (Hok (slice3 mix 0 (chunk_len_of R segment overlap)))
      as (chunk' & out & Hf & _ & _ & _ & Hl).
    rewrite Hf. unfold fade_forward, fade_sizes_ok.
    cbn [fade_in_len fade_out_len]. rewrite Hl. cbn [slice3 t3_len].
    fold (fade_len_of R overlap).
    destruct Hbad as [Hneg | Hshort].
    - destruct (Z.leb_spec 0 (fade_len_of R overlap)) as [H | H]; [ lia | ].
      rewrite !andb_false_r. reflexivity.
    - destruct (Z.leb_spec (fade_len_of R overlap)
                  (slice_len (t3_len mix) 0 (chunk_len_of R segment overlap)))
        as [H | H]; [ lia | ].
      rewrite !andb_false_r. reflexivity. }
  unfold separate_sources, r_final. simpl loop. rewrite Hg, Hb.
  cbn [r_status r_calls r_state]. rewrite state_at_raise_final.
  repeat split.
Qed.

Lemma fade_longer_than_chunk_raises_witness :
  valid_config 100 (1 # 10) (9 # 10)
  /\ r_status (separate_sources 100 1 identity_model (const3 1 1 1000 1)
                 (1 # 10) (9 # 10)) = Raised RuntimeError
  /\ r_calls (separate_sources 100 1 identity_model (const3 1 1 1000 1)
                (1 # 10) (9 # 10))
     = [mkWindow 0 (chunk_len_of 100 (1 # 10) (9 # 10)) 0
                 (fade_len_of 100 (9 # 10))]
  /\ r_final (separate_sources 100 1 identity_model (const3 1 1 1000 1)
                (1 # 10) (9 # 10))
     = zeros4 1 1 1 1000.
Proof.
  split; [ config_tac | ].
  apply (fade_longer_than_chunk_raises 100 (1 # 10) (9 # 10) identity_model
           (const3 1 1 1000 1) 0).
  - exact identity_model_ok.
  - vm_compute. reflexivity.
  - right. vm_compute. reflexivity.
Defined.

(** ** Overlap zero *)

(** With [overlap = 0] and a chunk of at least one frame the windows tile
    the frame axis: window [k] is [k * C, (k + 1) * C), both fade lengths are
    0, and the gain is 1 at every frame of the slice of a window. *)
Theorem zero_overlap_tiling (R : Z) (segment : Q) (model : Model)
    (mix : Tensor3) (fuel : nat) :
  0 < R -> (0 < segment)%Q ->
  1 <= chunk_len_of R segment 0 ->
  forall k w,
    nth_error (r_calls (separate_sources R fuel model mix segment 0)) k
    = Some w ->
    w = mkWindow (Z.of_nat k * chunk_len_of R segment 0)
                 ((Z.of_nat k + 1) * chunk_len_of R segment 0) 0 0
    /\ forall t, in_slice (t3_len mix) w t ->
                 (window_gain (t3_len mix) w t == 1)%Q.
Proof.
  intros HR Hseg HC1 k w Hk.
  assert (Hv : valid_config R segment 0).
  { repeat split; try assumption; lra. }
  assert (EV : fade_len_of R 0 = 0).
  { unfold fade_len_of, overlap_frames_of.
    transitivity (py_int (inject_Z 0)); [ | apply py_int_inject ].
    apply py_int_comp. change (inject_Z 0) with 0%Q. ring. }
  assert (Ea : first_advance_of R segment 0 = chunk_len_of R segment 0).
  { unfold first_advance_of, overlap_frames_of.
    transitivity (py_int (inject_Z (chunk_len_of R segment 0)));
      [ | apply py_int_inject ].
    apply py_int_comp. ring. }
  assert (Ha : 1 <= first_advance_of R segment 0) by lia.
  pose proof (valid_chunk_len_nonneg _ _ _ Hv) as HC.
  set (C := chunk_len_of R segment 0) in *.
  set (L := t3_len mix) in *.
  assert (Hstep : forall i st st',
            geom_inv L C (first_advance_of R segment 0) (fade_len_of R 0) i st ->
            loop_guard L (overlap_frames_of R 0) st = true ->
            body model L C (overlap_frames_of R 0) st = Ok st' ->
            geom_inv L C (first_advance_of R segment 0) (fade_len_of R 0)
                     (S i) st').
  { intros i st st'. apply geom_inv_step; assumption. }
  unfold separate_sources in Hk. fold C L in Hk.
  destruct (loop_calls_inv model L C _ _ Hstep fuel 0%nat _
              (init_geom_inv R model mix segment 0) k w Hk)
    as (st & Hinv & _ & ->).
  change (0 + k)%nat with k in Hinv. unfold geom_inv in Hinv.
  rewrite Hinv. rewrite Ea, EV. fold C.
  assert (Ew : nth_window L C C 0 k
               = mkWindow (Z.of_nat k * C) ((Z.of_nat k + 1) * C) 0 0).
  { unfold nth_window, end_at. f_equal.
    - destruct k as [ | k]; cbn [start_at]; [ reflexivity | ].
      rewrite Nat2Z.inj_succ. lia.
    - destruct k; reflexivity.
    - destruct k; cbn [fade_out_at]; [ reflexivity | ].
      destruct (_ >=? L); reflexivity. }
  rewrite Ew. split; [ reflexivity | ].
  intros t Ht. unfold in_slice in Ht. cbn [w_start w_end] in Ht.
  unfold window_gain. cbn [w_start w_end w_fade_in w_fade_out].
  rewrite fade_gain_cases by lia. cbn [fade_in_len fade_out_len].
  destruct (Z.ltb_spec (t - slice_lo L (Z.of_nat k * C)) 0) as [H1 | H1];
    [ lia | ].
  destruct (Z.ltb_spec (t - slice_lo L (Z.of_nat k * C))
              (slice_len L (Z.of_nat k * C) ((Z.of_nat k + 1) * C) - 0))
    as [H2 | H2]; [ ring | lia ].
Qed.

Lemma zero_overlap_tiling_witness :
  mkWindow 10 20 0 0
  = mkWindow (Z.of_nat 1 * chunk_len_of 10 1 0)
             ((Z.of_nat 1 + 1) * chunk_len_of 10 1 0) 0 0
  /\ (window_gain (t3_len (const3 1 1 25 1)) (mkWindow 10 20 0 0) 19 == 1)%Q.
Proof.
  assert (HR : 0 < 10) by reflexivity.
  assert (Hs : (0 < 1)%Q) by reflexivity.
  assert (HC : 1 <= chunk_len_of 10 1 0) by (vm_compute; discriminate).
  assert (H1 : nth_error (r_calls (separate_sources 10 10 identity_model
                                     (const3 1 1 25 1) 1 0)) 1
               = Some (mkWindow 10 20 0 0)) by (vm_compute; reflexivity).
  destruct (zero_overlap_tiling 10 1 identity_model (const3 1 1 25 1) 10
              HR Hs HC 1%nat (mkWindow 10 20 0 0) H1) as [A B].
  split; [ exact A | ].
  apply B. vm_compute. split; [ discriminate | reflexivity ].
Defined.

(** * The script around [separate_sources] *)

(** ** Dictionaries *)

Lemma dict_get_set_same {A : Type} (d : dict A) (k : string) (v : A) :
  dict_get (dict_set d k v) k = Some v.
Proof.
  induction d as [ | [k' v'] d IH]; simpl.
  - now rewrite String.eqb_refl.
  - destruct (String.eqb k' k) eqn:E; simpl; rewrite E; [ reflexivity | exact IH ].
Qed.

Lemma dict_get_set_other {A : Type} (d : dict A) (k k' : string) (v : A) :
  k <> k' -> dict_get (dict_set d k v) k' = dict_get d k'.
Proof.
  intros Hne. induction d as [ | [k0 v0] d IH]; simpl.
  - destruct (String.eqb_spec k k'); [ congruence | reflexivity ].
  - destruct (String.eqb_spec k0 k) as [-> | Hk0]; simpl.
    + destruct (String.eqb_spec k k'); [ congruence | reflexivity ].
    + destruct (String.eqb_spec k0 k'); [ reflexivity | exact IH ].
Qed.

Lemma dict_fold_notin {A : Type} (ps : list (string * A)) (d : dict A)
    (k : string) :
  ~ In k (map fst ps) ->
  dict_get (fold_left (fun d kv => dict_set d (fst kv) (snd kv)) ps d) k
  = dict_get d k.
Proof.
  revert d. induction ps as [ | [k0 v0] ps IH]; intros d Hn; simpl; [ reflexivity | ].
  rewrite IH by (intros H; apply Hn; now right).
  apply dict_get_set_other. intros ->. apply Hn. now left.
Qed.

Lemma dict_fold_in {A : Type} (ps : list (string * A)) (d : dict A)
    (k : string) (v : A) :
  NoDup (map fst ps) -> In (k, v) ps ->
  dict_get (fold_left (fun d kv => dict_set d (fst kv) (snd kv)) ps d) k
  = Some v.
Proof.
  revert d. induction ps as [ | [k0 v0] ps IH]; intros d Hnd Hin; simpl.
  - destruct Hin.
  - simpl in Hnd. inversion Hnd as [ | ? ? Hnotin Hnd' ]; subst.
    destruct Hin as [E | Hin].
    + injection E as -> ->. rewrite dict_fold_notin by exact Hnotin.
      apply dict_get_set_same.
    + now apply IH.
Qed.

Lemma dict_fold_none {A : Type} (ps : list (string * A)) (d : dict A)
    (k : string) :
  dict_get (fold_left (fun d kv => dict_set d (fst kv) (snd kv)) ps d) k = None
  <-> ~ In k (map fst ps) /\ dict_get d k = None.
Proof.
  revert d. induction ps as [ | [k0 v0] ps IH]; intros d; simpl.
  - tauto.
  - rewrite IH. destruct (String.eqb_spec k0 k) as [-> | Hne].
    + rewrite dict_get_set_same. split; [ intros [_ H]; discriminate | ].
      intros [H _]. exfalso. apply H. now left.
    + rewrite dict_get_set_other by exact Hne. tauto.
Qed.

Lemma combine_fst {A B : Type} (l : list A) (l' : list B) :
  List.length l = List.length l' -> map fst (combine l l') = l.
Proof.
  revert l'. induction l as [ | x l IH]; intros [ | y l'] H; simpl in *;
    try reflexivity; try discriminate.
  f_equal. apply IH. now injection H.
Qed.

Lemma nth_error_combine {A B : Type} (l : list A) (l' : list B) (i : nat)
    (x : A) (y : B) :
  nth_error l i = Some x -> nth_error l' i = Some y -> In (x, y) (combine l l').
Proof.
  revert l l'. induction i as [ | i IH]; intros [ | x0 l] [ | y0 l'] H1 H2;
    simpl in *; try discriminate.
  - injection H1 as ->. injection H2 as ->. now left.
  - right. now apply IH.
Qed.

(** ** The separated streams by name *)

(** When the separation cell completes, [audios] has an entry exactly for the
    names in [model.sources]; looking up any other name is a [KeyError].
    When the names are distinct, the entry of the [i]-th name is the [i]-th
    stream of the result of [separate_sources], with the normalisation
    undone, shaped as the loaded waveform. *)
Theorem audios_by_source_name (R : Z) (fuel : nat) (model : Model)
    (waveform : Tensor2) (mean std : Q) (audios : dict Tensor2) :
  separate_track R fuel model waveform mean std = Done audios ->
  (forall name, dict_get audios name = None <-> ~ In name (sources model))
  /\ (NoDup (sources model) ->
      forall i name, nth_error (sources model) i = Some name ->
        exists x,
          dict_get audios name = Some x
          /\ t2_chan x = t2_chan waveform /\ t2_len x = t2_len waveform
          /\ forall c t,
               t2_data x c t
               = (t4_data (r_final (separate_sources R fuel model
                                      (add_batch (normalize waveform mean std))
                                      script_segment script_overlap))
                          0 i c t * std + mean)%Q).
Proof.
  unfold separate_track. cbv zeta.
  set (run := separate_sources R fuel model
                (add_batch (normalize waveform mean std))
                script_segment script_overlap).
  destruct (loop_final_shape model
              (t3_len (add_batch (normalize waveform mean std)))
              (chunk_len_of R script_segment script_overlap)
              (overlap_frames_of R script_overlap) fuel
              (init_state R model (add_batch (normalize waveform mean std))
                          script_segment script_overlap))
    as (_ & Hsrc & Hchan & Hlen).
  change (st_final (r_state _)) with (r_final run) in Hsrc, Hchan, Hlen.
  simpl in Hsrc, Hchan, Hlen.
  destruct (r_status run); try discriminate.
  unfold index_batch0. destruct (Nat.eqb (t4_batch (r_final run)) 0);
    [ discriminate | ].
  intros H. injection H as <-.
  unfold unbind, denormalize. cbn [t3_batch t3_chan t3_len t3_data].
  rewrite Hsrc, Hchan, Hlen.
  set (g := fun s : nat =>
              mkT2 (t2_chan waveform) (t2_len waveform)
                   (fun c t => (t4_data (r_final run) 0 s c t * std + mean)%Q)).
  assert (Elen : List.length (sources model)
                 = List.length (map g (seq 0 (List.length (sources model))))).
  { now rewrite length_map, length_seq. }
  unfold dict_of_pairs. split.
  - intros name. rewrite dict_fold_none, (combine_fst _ _ Elen). simpl. tauto.
  - intros Hnd i name Hi. exists (g i).
    split; [ | repeat split ].
    apply dict_fold_in.
    + now rewrite (combine_fst _ _ Elen).
    + apply (nth_error_combine _ _ i); [ exact Hi | ].
      rewrite nth_error_map, nth_error_seq.
      assert (Hlt : (i < List.length (sources model))%nat).
      { apply nth_error_Some. congruence. }
      apply Nat.ltb_lt in Hlt. rewrite Hlt. reflexivity.
Qed.

Lemma audios_by_source_name_witness :
  exists audios,
    separate_track 10 40 identity_model (mkT2 2 40 (fun c t => inject_Z t)) 0 1
    = Done audios
    /\ dict_get audios "drums"%string = None
    /\ exists x, dict_get audios "mix"%string = Some x
                 /\ t2_chan x = 2%nat /\ t2_len x = 40.
Proof.
  destruct (separate_track 10 40 identity_model
              (mkT2 2 40 (fun c t => inject_Z t)) 0 1)
    as [audios | e | ] eqn:E;
    [ | vm_compute in E; discriminate | vm_compute in E; discriminate ].
  exists audios. split; [ reflexivity | ].
  destruct (audios_by_source_name 10 40 identity_model
              (mkT2 2 40 (fun c t => inject_Z t)) 0 1 audios E) as [Hk Hl].
  split.
  - apply Hk. simpl. intros [H | []]. discriminate H.
  - destruct (Hl (NoDup_cons _ (@in_nil string "mix"%string) (NoDup_nil _))
                0%nat "mix"%string eq_refl) as (x & Hx & Hc & Hn & _).
    exists x. repeat split; assumption.
Defined.

(** ** The script with the identity adapter *)

(** The configuration of the script at a sample rate that is a multiple of
    10: chunks of 11 seconds and an overlap of a tenth of a second rate. *)
Lemma script_config (r : Z) :
  0 < r ->
  valid_config (10 * r) script_segment script_overlap
  /\ chunk_len_of (10 * r) script_segment script_overlap = 110 * r
  /\ fade_len_of (10 * r) script_overlap = r
  /\ (overlap_frames_of (10 * r) script_overlap == inject_Z r)%Q
  /\ first_advance_of (10 * r) script_segment script_overlap = 109 * r.
Proof.
  intros Hr.
  assert (Eo : (overlap_frames_of (10 * r) script_overlap == inject_Z r)%Q).
  { unfold overlap_frames_of, script_overlap. rewrite inject_Z_mult.
    change (inject_Z 10) with 10%Q. field. }
  assert (EC : chunk_len_of (10 * r) script_segment script_overlap = 110 * r).
  { unfold chunk_len_of, script_segment, script_overlap.
    transitivity (py_int (inject_Z (110 * r))); [ | apply py_int_inject ].
    apply py_int_comp. rewrite !inject_Z_mult.
    change (inject_Z 10) with 10%Q. change (inject_Z 110) with 110%Q. field. }
  assert (EV : fade_len_of (10 * r) script_overlap = r).
  { unfold fade_len_of.
    transitivity (py_int (inject_Z r)); [ | apply py_int_inject ].
    now apply py_int_comp. }
  repeat split; try (unfold script_segment, script_overlap; lra); try lia;
    try assumption.
  unfold first_advance_of. rewrite EC.
  transitivity (py_int (inject_Z (109 * r))); [ | apply py_int_inject ].
  apply py_int_comp. rewrite Eo, !inject_Z_mult.
  change (inject_Z 110) with 110%Q. change (inject_Z 109) with 109%Q. ring.
Qed.



(** ** The clips *)

(** Cutting the clip of a stream that is in [audios] never fails: it has
    the frames from second 150 to second 155 that the stream has.  A stream
    of at least 155 seconds gives exactly five seconds, a stream of at most
    150 seconds gives an empty clip, and every frame of the clip is the
    frame of the stream 150 seconds later.  A name that is not in [audios]
    is a [KeyError]. *)
Theorem clip_frames (R : Z) (audios : dict Tensor2) (name : string) :
  0 <= R ->
  (dict_get audios name = None -> clip R audios name = Fails KeyError)
  /\ forall x, dict_get audios name = Some x -> 0 <= t2_len x ->
       exists y,
         clip R audios name = Done y
         /\ t2_chan y = t2_chan x
         /\ t2_len y
            = Z.min (segment_end * R) (t2_len x)
              - Z.min (segment_start * R) (t2_len x)
         /\ (segment_end * R <= t2_len x -> t2_len y = 5 * R)
         /\ (t2_len x <= segment_start * R -> t2_len y = 0)
         /\ forall c t, 0 <= t < t2_len y ->
              t2_data y c t = t2_data x c (segment_start * R + t).
Proof.
  intros HR. unfold clip. split.
  - intros ->. reflexivity.
  - intros x -> Hx. eexists. split; [ reflexivity | ].
    unfold slice2, slice_len, slice_lo, slice_bound, segment_start, segment_end.
    cbn [t2_chan t2_len t2_data].
    destruct (Z.ltb_spec (155 * R) 0) as [H1 | H1]; [ lia | ].
    destruct (Z.ltb_spec (150 * R) 0) as [H2 | H2]; [ lia | ].
    repeat split; try lia.
    intros c t Ht. f_equal. lia.
Qed.

Lemma clip_frames_witness :
  clip 10 [("mix"%string, mkT2 2 1520 (fun c t => inject_Z t))] "bass"%string
  = Fails KeyError
  /\ exists y,
       clip 10 [("mix"%string, mkT2 2 1520 (fun c t => inject_Z t))]
            "mix"%string = Done y
       /\ t2_len y = 20.
Proof.
  assert (HR : 0 <= 10) by discriminate.
  destruct (clip_frames 10 [("mix"%string, mkT2 2 1520 (fun c t => inject_Z t))]
              "bass"%string HR) as [Hnone _].
  destruct (clip_frames 10 [("mix"%string, mkT2 2 1520 (fun c t => inject_Z t))]
              "mix"%string HR) as [_ Hsome].
  split; [ apply Hnone; reflexivity | ].
  destruct (Hsome (mkT2 2 1520 (fun c t => inject_Z t)) eq_refl)
    as (y & Ey & _ & El & _).
  - discriminate.
  - exists y. split; [ exact Ey | ]. rewrite El. reflexivity.
Defined.
